(** * EdenAI text-generation service: response extraction, retry ladder,
      JSON post-processing

    A shallow embedding of [src/services/edenAITextService.ts]
    ([generateText], [chat], [generateTextWithRetry], [parseJSONResponse])
    and the properties its specification states about it.

    Modelling conventions.
    - A JavaScript string is a [string]: a sequence of code units in the
      range 0..255.  White space ([String.prototype.trim], the regular
      expression class [\s]) is the ECMAScript WhiteSpace and LineTerminator
      set restricted to that range: 9..13, 32 and 160.
    - A JSON number is carried by its canonical rendering (the result of
      JavaScript's Number-to-String conversion), which is all the service
      ever observes of a number: its truthiness and its interpolation into
      a template literal.
    - A parsed response body is an object: its own properties as an
      association list in [Object.keys] order, behind which a read under
      a computed key finds the members of [Object.prototype].
    - [async] code is sequential; it becomes a state-and-exception monad
      over the trace of observable events (calls, network requests, timer
      waits, parses).  The network and [JSON.parse] are parameters.
    - The retry loop runs on fuel; every property gives the result for
      any fuel above [maxRetries]. *)

From Stdlib Require Import ZArith List String Ascii Bool Lia.
From Stdlib Require Import DecimalString.
Import ListNotations.
Local Open Scope string_scope.

(** ** String primitives of the JavaScript runtime *)

Module Js.

Definition is_whitespace (c : ascii) : bool :=
  let n := nat_of_ascii c in
  ((9 <=? n)%nat && (n <=? 13)%nat) || (n =? 32)%nat || (n =? 160)%nat.

(** [s.trimStart()], [s.trimEnd()], [s.trim()]. *)
Fixpoint trimStart (s : string) : string :=
  match s with
  | EmptyString => EmptyString
  | String c s' => if is_whitespace c then trimStart s' else s
  end.

Fixpoint trimEnd (s : string) : string :=
  match s with
  | EmptyString => EmptyString
  | String c s' =>
      match trimEnd s' with
      | EmptyString => if is_whitespace c then EmptyString else String c EmptyString
      | t => String c t
      end
  end.

Definition trim (s : string) : string := trimEnd (trimStart s).

(** [s.includes(sub)]. *)
Fixpoint includes (s sub : string) : bool :=
  String.prefix sub s ||
  match s with
  | EmptyString => false
  | String _ s' => includes s' sub
  end.

(** [s.split(sep)] for a one-character separator. *)
Fixpoint split (sep : ascii) (s : string) : list string :=
  match s with
  | EmptyString => [EmptyString]
  | String c s' =>
      let r := split sep s' in
      if Ascii.eqb c sep then EmptyString :: r
      else match r with
           | h :: t => String c h :: t
           | [] => [String c EmptyString]
           end
  end.

(** [s.slice(0, n)]. *)
Fixpoint slice0 (n : nat) (s : string) : string :=
  match n, s with
  | S k, String c s' => String c (slice0 k s')
  | _, _ => EmptyString
  end.

(** ASCII case folding, as the [i] flag of a regular expression without the
    [u] flag performs it on the letters of a pattern. *)
Definition upcase (c : ascii) : ascii :=
  let n := nat_of_ascii c in
  if (97 <=? n)%nat && (n <=? 122)%nat then ascii_of_nat (n - 32) else c.

Definition eqb_nocase (a b : ascii) : bool := Ascii.eqb (upcase a) (upcase b).

(** [pat] matches at the head of [s], characters compared with [eqc]. *)
Fixpoint starts_with (eqc : ascii -> ascii -> bool) (pat s : string) : bool :=
  match pat, s with
  | EmptyString, _ => true
  | String p pat', String c s' => eqc p c && starts_with eqc pat' s'
  | String _ _, EmptyString => false
  end.

(** [s.replace(/pat/g, '')] for a non-empty literal pattern: every
    occurrence, found left to right without overlap, is deleted.  [skip]
    counts the characters of the current match still to be dropped. *)
Fixpoint remove_all_from (eqc : ascii -> ascii -> bool) (pat : string)
    (skip : nat) (s : string) : string :=
  match s with
  | EmptyString => EmptyString
  | String c s' =>
      match skip with
      | S k => remove_all_from eqc pat k s'
      | O =>
          if starts_with eqc pat s
          then remove_all_from eqc pat (String.length pat - 1) s'
          else String c (remove_all_from eqc pat 0 s')
      end
  end.

Definition remove_all (eqc : ascii -> ascii -> bool) (pat s : string) : string :=
  remove_all_from eqc pat 0 s.

End Js.

(** ** JSON data and JavaScript values *)

#[local] Set Warnings "-register-all".

(** A JavaScript number, by its canonical rendering. *)
Definition num := string.

Inductive json : Type :=
| JNull
| JBool (b : bool)
| JNum (repr : num)
| JStr (s : string)
| JArr (items : list json)
| JObj (fields : list (string * json)).

(** The own properties of a plain object, in [Object.keys] order. *)
Definition object := list (string * json).

(** What a variable of the service may hold: [undefined], a value that
    came out of the parsed response, or a member that a plain object
    inherits from [Object.prototype]: one of its functions, or, under
    [__proto__], the prototype itself.  An inherited member is truthy and
    has none of the properties the service reads. *)
Inductive jsval : Type :=
| Undefined
| Json (j : json)
| Inherited (callable : bool).

Definition dquote : ascii := "034"%char.
Definition backslash : ascii := "092"%char.
Definition newline : ascii := "010"%char.

(** [s] between double quotes. *)
Definition quoted (s : string) : string :=
  String dquote (s ++ String dquote EmptyString).

Definition json_truthy (j : json) : bool :=
  match j with
  | JNull => false
  | JBool b => b
  | JNum r => negb (String.eqb r "0")
  | JStr s => negb (String.eqb s "")
  | JArr _ | JObj _ => true
  end.

Definition truthy (v : jsval) : bool :=
  match v with
  | Undefined => false
  | Json j => json_truthy j
  | Inherited _ => true
  end.

(** [a || b]. *)
Definition or_else (a b : jsval) : jsval := if truthy a then a else b.

(** [v === 'lit']. *)
Definition is_string (v : jsval) (lit : string) : bool :=
  match v with
  | Json (JStr s) => String.eqb s lit
  | _ => false
  end.

(** Conversion to a string, as a template literal performs it on a value
    of the parsed response; [None] is the [TypeError] of a value that
    cannot be converted.  An array joins its converted elements, [null]
    counting as empty.  An object converts through the [toString] it
    inherits, unless a property of its own hides it: a value of the parsed
    response is not callable, and the conversion then fails. *)
Fixpoint ToString (j : json) : option string :=
  match j with
  | JNull => Some "null"
  | JBool true => Some "true"
  | JBool false => Some "false"
  | JNum r => Some r
  | JStr s => Some s
  | JArr items =>
      (fix join (l : list json) : option string :=
         match l with
         | [] => Some ""
         | x :: rest =>
             match (match x with JNull => Some "" | _ => ToString x end) with
             | None => None
             | Some e =>
                 match rest with
                 | [] => Some e
                 | _ :: _ =>
                     match join rest with
                     | Some r => Some (e ++ "," ++ r)
                     | None => None
                     end
                 end
             end
         end) items
  | JObj fields =>
      if existsb (fun kv => String.eqb (fst kv) "toString") fields then None
      else Some "[object Object]"
  end.

Definition hex_digit (n : nat) : ascii :=
  if (n <? 10)%nat then ascii_of_nat (48 + n) else ascii_of_nat (87 + n).

(** [JSON.stringify] on a string: QuoteJSONString. *)
Fixpoint escape_json (s : string) : string :=
  match s with
  | EmptyString => EmptyString
  | String c s' =>
      let n := nat_of_ascii c in
      let rest := escape_json s' in
      if (n =? 8)%nat then String backslash (String "b" rest)
      else if (n =? 9)%nat then String backslash (String "t" rest)
      else if (n =? 10)%nat then String backslash (String "n" rest)
      else if (n =? 12)%nat then String backslash (String "f" rest)
      else if (n =? 13)%nat then String backslash (String "r" rest)
      else if (n =? 34)%nat then String backslash (String dquote rest)
      else if (n =? 92)%nat then String backslash (String backslash rest)
      else if (n <? 32)%nat then
        String backslash
          (String "u" (String "0" (String "0"
            (String (hex_digit (n / 16)) (String (hex_digit (n mod 16)) rest)))))
      else String c rest
  end.

(** [JSON.stringify(j)] without indentation. *)
Fixpoint JSON_stringify (j : json) : string :=
  match j with
  | JNull => "null"
  | JBool true => "true"
  | JBool false => "false"
  | JNum r => r
  | JStr s => quoted (escape_json s)
  | JArr items =>
      "[" ++
      (fix elems (l : list json) : string :=
         match l with
         | [] => ""
         | x :: rest =>
             match rest with
             | [] => JSON_stringify x
             | _ :: _ => JSON_stringify x ++ "," ++ elems rest
             end
         end) items ++ "]"
  | JObj fields =>
      "{" ++
      (fix members (l : list (string * json)) : string :=
         match l with
         | [] => ""
         | (k, x) :: rest =>
             let m := quoted (escape_json k) ++ ":" ++ JSON_stringify x in
             match rest with
             | [] => m
             | _ :: _ => m ++ "," ++ members rest
             end
         end) fields ++ "}"
  end.

(** The functions every plain object inherits from [Object.prototype]. *)
Definition object_prototype_functions : list string :=
  [ "constructor"; "hasOwnProperty"; "isPrototypeOf"; "propertyIsEnumerable";
    "toLocaleString"; "toString"; "valueOf";
    "__defineGetter__"; "__defineSetter__"; "__lookupGetter__"; "__lookupSetter__" ].

Fixpoint own (fields : object) (key : string) : option json :=
  match fields with
  | [] => None
  | (k, v) :: rest => if String.eqb k key then Some v else own rest key
  end.

(** [data[key]] on the parsed response, for a key computed at run time:
    an own property first, then the prototype. *)
Definition data_get (data : object) (key : string) : jsval :=
  match own data key with
  | Some v => Json v
  | None =>
      if existsb (String.eqb key) object_prototype_functions then Inherited true
      else if String.eqb key "__proto__" then Inherited false
      else Undefined
  end.

(** [Object.keys(data)]. *)
Definition keys (data : object) : list string := map fst data.

(** [v?.name] for one of the four names the service reads ([status],
    [error], [generated_text], [message]).  No built-in prototype defines
    any of them, so the read yields the own property of an object and
    [undefined] on every other value. *)
Definition opt_member (v : jsval) (name : string) : jsval :=
  match v with
  | Json (JObj fields) =>
      match own fields name with
      | Some x => Json x
      | None => Undefined
      end
  | _ => Undefined
  end.

(** ** Failures *)

(** The exceptions the service raises or lets through.  Each stands for a
    JavaScript [Error]; [message] below gives its text.  [Rejected] is a
    rejection of the network layer ([fetch] or the reading of a body),
    [TypeError] an error the runtime raises while it evaluates an
    expression of the service. *)
Inductive error : Type :=
| ApiKeyNotConfigured
| ApiError (status : N) (errorText : string)
| NoResponse (provider : string) (shown : option object)
| ProviderError (detail : string)
| EmptyResponse
| Rejected (reason : string)
| TypeError (what : string)
| FailedAfterRetries
| EmptyInput
| InvalidJSON.

Definition message (e : error) : string :=
  match e with
  | ApiKeyNotConfigured => "EdenAI API key is not configured"
  | ApiError status errorText =>
      "EdenAI API error: " ++ NilZero.string_of_uint (N.to_uint status)
      ++ " - " ++ errorText
  | NoResponse provider (Some data) =>
      "No response from provider: " ++ provider ++ ". Response: "
      ++ Js.slice0 500 (JSON_stringify (JObj data))
  | NoResponse provider None => "No response from provider: " ++ provider
  | ProviderError detail => "Provider error: " ++ detail
  | EmptyResponse => "Empty response from AI provider"
  | Rejected reason => reason
  | TypeError what => what
  | FailedAfterRetries => "Failed to generate text after retries"
  | EmptyInput => "Empty response from AI - cannot parse JSON"
  | InvalidJSON => "Invalid JSON response from AI"
  end.

(** The failure classes of the specification's taxonomy. *)
Inductive error_class : Type :=
| TransportError
| NoProviderResponseError
| ProviderReportedError
| EmptyResponseError
| MalformedJsonError
| EmptyInputError.

Definition classify (e : error) : option error_class :=
  match e with
  | ApiError _ _ => Some TransportError
  | NoResponse _ _ => Some NoProviderResponseError
  | ProviderError _ => Some ProviderReportedError
  | EmptyResponse => Some EmptyResponseError
  | InvalidJSON => Some MalformedJsonError
  | EmptyInput => Some EmptyInputError
  | ApiKeyNotConfigured | Rejected _ | TypeError _ | FailedAfterRetries => None
  end.

(** How a call ends: [return] or [throw]. *)
Inductive outcome (A : Type) : Type :=
| Returns (a : A)
| Throws (e : error).
Arguments Returns {A} a.
Arguments Throws {A} e.

(** [v.name]: as [v?.name], except that reading a property of [undefined]
    or [null] throws. *)
Definition member (v : jsval) (name : string) : outcome jsval :=
  match v with
  | Undefined | Json JNull => Throws (TypeError "Cannot read properties of undefined")
  | _ => Returns (opt_member v name)
  end.

(** ** Requests, responses and the observable trace *)

Inductive role : Type := user | assistant | system.

Definition role_eqb (a b : role) : bool :=
  match a, b with
  | user, user | assistant, assistant | system, system => true
  | _, _ => false
  end.

Record ChatMessage : Type := { msg_role : role; content : string }.

(** The JSON body posted to the chat endpoint. *)
Record request : Type := {
  providers : string;
  text : string;
  chatbot_global_action : string;
  previous_history : list (role * string);
  temperature : num;
  max_tokens : num
}.

(** The [options] argument of the exported functions; an absent field is
    [None].  [generateText] and [chat] never read [maxRetries], which the
    data model of the specification makes an integer. *)
Record options : Type := {
  opt_provider : option string;
  opt_temperature : option num;
  opt_maxTokens : option num;
  opt_maxRetries : option Z
}.

(** What the network answers to one [fetch]. *)
Inductive http_outcome : Type :=
| FetchRejected (reason : string)
| HttpError (status : N) (errorText : string)
| HttpOk (data : object).

(** What a run leaves in its trace: a call of [generateText] for a
    provider (the request it logs on entry), a [fetch] with its body, a
    wait requested from the timer with its delay in milliseconds, a call
    of [JSON.parse] with its argument. *)
Inductive event : Type :=
| Invoked (provider : string)
| Fetched (req : request)
| Slept (ms : Z)
| Parsed (source : string).

(** The trace so far, oldest event first. *)
Definition world := list event.

Definition is_fetch (e : event) : bool :=
  match e with Fetched _ => true | _ => false end.

Definition fetch_count (w : world) : nat := List.length (filter is_fetch w).

Definition invocations (w : world) : list string :=
  flat_map (fun e => match e with Invoked p => [p] | _ => [] end) w.

Definition fetches (w : world) : list request :=
  flat_map (fun e => match e with Fetched r => [r] | _ => [] end) w.

Definition sleeps (w : world) : list Z :=
  flat_map (fun e => match e with Slept ms => [ms] | _ => [] end) w.

(** ** The monad of the service: a trace and exceptions *)

Definition M (A : Type) : Type := world -> outcome A * world.

Definition ret {A} (a : A) : M A := fun w => (Returns a, w).

Definition throw {A} (e : error) : M A := fun w => (Throws e, w).

Definition bind {A B} (m : M A) (k : A -> M B) : M B :=
  fun w =>
    match m w with
    | (Returns a, w') => k a w'
    | (Throws e, w') => (Throws e, w')
    end.

(** [try { m } catch (e) { h e }]. *)
Definition try_catch {A} (m : M A) (h : error -> M A) : M A :=
  fun w =>
    match m w with
    | (Returns a, w') => (Returns a, w')
    | (Throws e, w') => h e w'
    end.

Definition lift {A} (o : outcome A) : M A := fun w => (o, w).

Definition emit (e : event) : M unit := fun w => (Returns tt, (w ++ [e])%list).

Declare Scope service_scope.
Delimit Scope service_scope with service.
Notation "x <- m ;; k" := (bind m (fun x => k))
  (at level 61, m at next level, right associativity) : service_scope.
Notation "m ;;; k" := (bind m (fun _ => k))
  (at level 61, right associativity) : service_scope.

(** The same sequencing for code that touches no trace. *)
Definition bind_pure {A B} (o : outcome A) (k : A -> outcome B) : outcome B :=
  match o with
  | Returns a => k a
  | Throws e => Throws e
  end.

(** ** Response extraction (the tail of [generateText] and of [chat]) *)

Definition DEFAULT_PROVIDER : string := "openai/gpt-4o-mini".

Definition with_default {A} (d : A) (o : option A) : A :=
  match o with
  | Some a => a
  | None => d
  end.

(** Interpolation of a variable into a template literal.  An inherited
    member never reaches it, only members of the parsed response do; a
    function would render as its source text. *)
Definition ToString_val (v : jsval) : option string :=
  match v with
  | Undefined => Some "undefined"
  | Json j => ToString j
  | Inherited false => Some "[object Object]"
  | Inherited true => Some "function () { [native code] }"
  end.

(** [JSON.stringify(v)]; [None] is [undefined], the result on a function. *)
Definition JSON_stringify_val (v : jsval) : option string :=
  match v with
  | Undefined => None
  | Json j => Some (JSON_stringify j)
  | Inherited false => Some "{}"
  | Inherited true => None
  end.

(** [console.error('   Provider response:',
    JSON.stringify(providerResponse).slice(0, 500))]: the one log line of
    the service whose argument can fail to evaluate. *)
Definition log_providerResponse (providerResponse : jsval) : outcome unit :=
  match JSON_stringify_val providerResponse with
  | Some _ => Returns tt
  | None => Throws (TypeError "Cannot read properties of undefined")
  end.

(** [let providerResponse = data[provider]], then the same read under the
    base name when that is falsy and the provider has a model suffix. *)
Definition lookup_providerResponse (data : object) (provider : string) : jsval :=
  let providerResponse := data_get data provider in
  if negb (truthy providerResponse) && Js.includes provider "/" then
    let baseProvider := hd "" (Js.split "/" provider) in
    data_get data baseProvider
  else providerResponse.

(** [data[k]?.generated_text], as a condition. *)
Definition exposes_text (data : object) (k : string) : bool :=
  truthy (opt_member (data_get data k) "generated_text").

(** [Object.keys(data).filter(k => data[k]?.generated_text)]. *)
Definition availableProviders (data : object) : list string :=
  filter (exposes_text data) (keys data).

(** The scan that replaces a missing entry: the first key, in
    [Object.keys] order, whose entry exposes generated text. *)
Definition scan_generateText (provider : string) (data : object)
  : outcome jsval :=
  match availableProviders data with
  | fallbackProvider :: _ =>
      bind_pure (member (data_get data fallbackProvider) "generated_text")
        (fun t => Returns (or_else t (Json (JStr ""))))
  | [] => Throws (NoResponse provider (Some data))
  end.

(** The checks [generateText] applies to the entry it matched. *)
Definition check_providerResponse (providerResponse : jsval) : outcome jsval :=
  bind_pure (member providerResponse "status") (fun status =>
  bind_pure (member providerResponse "error") (fun err =>
  if is_string status "fail" || truthy err then
    match ToString_val (or_else (opt_member err "message")
                                (Json (JStr "Unknown error"))) with
    | Some detail => Throws (ProviderError detail)
    | None => Throws (TypeError "Cannot convert object to primitive value")
    end
  else
    bind_pure (member providerResponse "generated_text") (fun t =>
    let generatedText := or_else t (Json (JStr "")) in
    let empty : outcome jsval :=
      bind_pure (log_providerResponse providerResponse)
                (fun _ => Throws EmptyResponse) in
    if negb (truthy generatedText) then empty
    else
      match generatedText with
      | Json (JStr s) =>
          if (String.length (Js.trim s) =? 0)%nat then empty
          else Returns generatedText
      | _ => Throws (TypeError "generatedText.trim is not a function")
      end))).

(** [generateText] from the parsed body on. *)
Definition extract_generateText (provider : string) (data : object)
  : outcome jsval :=
  let providerResponse := lookup_providerResponse data provider in
  if negb (truthy providerResponse) then scan_generateText provider data
  else check_providerResponse providerResponse.

(** [chat] from the parsed body on. *)
Definition extract_chat (provider : string) (data : object) : outcome jsval :=
  let providerResponse := lookup_providerResponse data provider in
  if negb (truthy providerResponse) then
    match availableProviders data with
    | first :: _ =>
        bind_pure (member (data_get data first) "generated_text")
          (fun t => Returns (or_else t (Json (JStr ""))))
    | [] => Throws (NoResponse provider None)
    end
  else
    bind_pure (member providerResponse "generated_text")
      (fun t => Returns (or_else t (Json (JStr "")))).

(** What [generateText] and [chat] make of the answer to their [fetch]. *)
Definition respond (extract : string -> object -> outcome jsval)
    (provider : string) (response : http_outcome) : outcome jsval :=
  match response with
  | FetchRejected reason => Throws (Rejected reason)
  | HttpError status errorText => Throws (ApiError status errorText)
  | HttpOk data => extract provider data
  end.

(** The body [generateText] posts. *)
Definition generateText_body (prompt : string) (opts : options) : request :=
  {| providers := with_default DEFAULT_PROVIDER (opt_provider opts);
     text := prompt;
     chatbot_global_action :=
       "You are a helpful AI assistant for resume optimization and career guidance.";
     previous_history := [];
     temperature := with_default "0.3" (opt_temperature opts);
     max_tokens := with_default "4000" (opt_maxTokens opts) |}.

(** ** The regular expressions of [parseJSONResponse] *)

(** The longest prefix of [s] that ends with [closer], if [closer] occurs. *)
Fixpoint through_last (closer : ascii) (s : string) : option string :=
  match s with
  | EmptyString => None
  | String c s' =>
      match through_last closer s' with
      | Some t => Some (String c t)
      | None => if Ascii.eqb c closer then Some (String c EmptyString) else None
      end
  end.

(** [cleaned.match(/(\{[\s\S]*\}|\[[\s\S]*\])/)]: the leftmost position
    where one alternative matches; there, the star runs to the last closer. *)
Fixpoint jsonMatch (s : string) : option string :=
  match s with
  | EmptyString => None
  | String c s' =>
      let here :=
        if Ascii.eqb c "{" then option_map (String c) (through_last "}" s')
        else if Ascii.eqb c "[" then option_map (String c) (through_last "]" s')
        else None in
      match here with
      | Some m => Some m
      | None => jsonMatch s'
      end
  end.

(** After a comma: the length of [\s*] followed by [closer], if that is
    what comes next. *)
Fixpoint spaces_then (closer : ascii) (s : string) : option nat :=
  match s with
  | EmptyString => None
  | String c s' =>
      if Ascii.eqb c closer then Some 1%nat
      else if Js.is_whitespace c then option_map S (spaces_then closer s')
      else None
  end.

(** [s.replace(/,\s*X/g, 'X')] for a closer [X]; [skip] as in
    [Js.remove_all_from]. *)
Fixpoint drop_trailing_commas_from (closer : ascii) (skip : nat) (s : string)
  : string :=
  match s with
  | EmptyString => EmptyString
  | String c s' =>
      match skip with
      | S k => drop_trailing_commas_from closer k s'
      | O =>
          match (if Ascii.eqb c "," then spaces_then closer s' else None) with
          | Some n => String closer (drop_trailing_commas_from closer n s')
          | None => String c (drop_trailing_commas_from closer 0 s')
          end
      end
  end.

Definition drop_trailing_commas (closer : ascii) (s : string) : string :=
  drop_trailing_commas_from closer 0 s.

(** The cleaning steps of [parseJSONResponse], before the first parse. *)
Definition strip_fences (response : string) : string :=
  Js.trim (Js.remove_all Ascii.eqb "```"
            (Js.remove_all Js.eqb_nocase "```json" response)).

Definition select_span (cleaned : string) : string :=
  match jsonMatch cleaned with
  | Some m => m
  | None => cleaned
  end.

Definition fix_commas (cleaned : string) : string :=
  drop_trailing_commas "]" (drop_trailing_commas "}" cleaned).

(** ** A reference parser for a fragment of JSON

    [JSON.parse] belongs to the runtime, not to the service, and the
    service is modelled over an arbitrary [JSON_parse].  Concrete runs
    need one instance.  [Fragment.parse] reads the documents made of
    objects, arrays, strings without escapes, the three literals and
    integers of at most 15 digits (whose canonical rendering is their own
    text), with keys that are neither repeated nor numeric (so that
    [Object.keys] order is source order).  On those it agrees with
    [JSON.parse]; it refuses every other text, valid JSON or not. *)

Module Fragment.

Definition is_ws (c : ascii) : bool :=
  let n := nat_of_ascii c in
  (n =? 32)%nat || (n =? 9)%nat || (n =? 10)%nat || (n =? 13)%nat.

Definition is_digit (c : ascii) : bool :=
  let n := nat_of_ascii c in (48 <=? n)%nat && (n <=? 57)%nat.

Fixpoint skip_ws (s : string) : string :=
  match s with
  | String c s' => if is_ws c then skip_ws s' else s
  | EmptyString => EmptyString
  end.

(** The leading digits of [s], and what follows them. *)
Fixpoint digits (s : string) : string * string :=
  match s with
  | String c s' =>
      if is_digit c then let (d, r) := digits s' in (String c d, r)
      else (EmptyString, s)
  | EmptyString => (EmptyString, EmptyString)
  end.

Fixpoint drop (n : nat) (s : string) : string :=
  match n, s with
  | S k, String _ s' => drop k s'
  | _, _ => s
  end.

(** The body of a string literal up to its closing quote. *)
Fixpoint chars (s : string) : option (string * string) :=
  match s with
  | EmptyString => None
  | String c s' =>
      if Ascii.eqb c dquote then Some (EmptyString, s')
      else if Ascii.eqb c backslash || (nat_of_ascii c <? 32)%nat then None
      else match chars s' with
           | Some (body, r) => Some (String c body, r)
           | None => None
           end
  end.

(** An integer literal: no leading zero, no fraction, no exponent. *)
Definition integer (negative : bool) (s : string) : option (json * string) :=
  let (d, r) := digits s in
  let well_formed :=
    match d with
    | EmptyString => false
    | String "0" (String _ _) => false
    | _ => (String.length d <=? 15)%nat
    end in
  let ends :=
    match r with
    | String c _ => negb (Ascii.eqb c "." || Ascii.eqb c "e" || Ascii.eqb c "E")
    | EmptyString => true
    end in
  if well_formed && ends then
    Some (JNum (if negative && negb (String.eqb d "0") then String "-" d else d), r)
  else None.

Definition fresh_key (k : string) (seen : list (string * json)) : bool :=
  negb (existsb (fun kv => String.eqb (fst kv) k) seen)
  && negb (String.eqb (snd (digits k)) "" && negb (String.eqb k "")).

Fixpoint value (fuel : nat) (s : string) : option (json * string) :=
  match fuel with
  | O => None
  | S fuel' =>
      match skip_ws s with
      | EmptyString => None
      | String c r =>
          if Ascii.eqb c "{" then
            match skip_ws r with
            | String "}" r' => Some (JObj [], r')
            | _ => members fuel' r []
            end
          else if Ascii.eqb c "[" then
            match skip_ws r with
            | String "]" r' => Some (JArr [], r')
            | _ => elements fuel' r []
            end
          else if Ascii.eqb c dquote then
            match chars r with
            | Some (body, r') => Some (JStr body, r')
            | None => None
            end
          else if Ascii.eqb c "-" then integer true r
          else if is_digit c then integer false (String c r)
          else if String.prefix "true" (String c r) then
            Some (JBool true, drop 4 (String c r))
          else if String.prefix "false" (String c r) then
            Some (JBool false, drop 5 (String c r))
          else if String.prefix "null" (String c r) then
            Some (JNull, drop 4 (String c r))
          else None
      end
  end
with elements (fuel : nat) (s : string) (acc : list json)
  : option (json * string) :=
  match fuel with
  | O => None
  | S fuel' =>
      match value fuel' s with
      | Some (v, r) =>
          match skip_ws r with
          | String "," r' => elements fuel' r' (acc ++ [v])%list
          | String "]" r' => Some (JArr (acc ++ [v])%list, r')
          | _ => None
          end
      | None => None
      end
  end
with members (fuel : nat) (s : string) (acc : list (string * json))
  : option (json * string) :=
  match fuel with
  | O => None
  | S fuel' =>
      match skip_ws s with
      | String c r =>
          if Ascii.eqb c dquote then
            match chars r with
            | Some (k, r1) =>
                match skip_ws r1 with
                | String ":" r2 =>
                    match value fuel' r2 with
                    | Some (v, r3) =>
                        if fresh_key k acc then
                          match skip_ws r3 with
                          | String "," r4 => members fuel' r4 (acc ++ [(k, v)])%list
                          | String "}" r4 => Some (JObj (acc ++ [(k, v)])%list, r4)
                          | _ => None
                          end
                        else None
                    | None => None
                    end
                | _ => None
                end
            | None => None
            end
          else None
      | EmptyString => None
      end
  end.

Definition parse (source : string) : option json :=
  match value (2 * String.length source + 2) source with
  | Some (v, r) =>
      match skip_ws r with
      | EmptyString => Some v
      | String _ _ => None
      end
  | None => None
  end.

End Fragment.

(** ** The service *)

Local Open Scope service_scope.

Inductive loop_exit : Type :=
| Returned (text : jsval)
| Exhausted (lastError : option error)
| OutOfFuel.

Section Service.

(** [import.meta.env.VITE_EDENAI_API_KEY]. *)
Variable EDENAI_API_KEY : option string.

(** The remote end: what the [n]-th [fetch] of a run (counted from 0)
    answers to the body it is sent. *)
Variable network : nat -> request -> http_outcome.

(** The runtime's [JSON.parse]; [None] is a [SyntaxError]. *)
Variable JSON_parse : string -> option json.

Definition api_key_configured : bool :=
  match EDENAI_API_KEY with
  | Some k => negb (String.eqb k "")
  | None => false
  end.

(** [await fetch(EDENAI_API_URL, { method: 'POST', ..., body })], with the
    reading of the body that follows it. *)
Definition fetch (req : request) : M http_outcome :=
  fun w => (Returns (network (fetch_count w) req), (w ++ [Fetched req])%list).

(** [await new Promise(resolve => setTimeout(resolve, delay))]. *)
Definition wait (delay : Z) : M unit := emit (Slept delay).

Definition generateText (prompt : string) (opts : options) : M jsval :=
  let provider := with_default DEFAULT_PROVIDER (opt_provider opts) in
  emit (Invoked provider) ;;;
  if negb api_key_configured then throw ApiKeyNotConfigured
  else
    response <- fetch (generateText_body prompt opts) ;;
    lift (respond extract_generateText provider response).

Definition chat (messages : list ChatMessage) (opts : options) : M jsval :=
  let provider := with_default DEFAULT_PROVIDER (opt_provider opts) in
  let temperature := with_default "0.3" (opt_temperature opts) in
  let maxTokens := with_default "4000" (opt_maxTokens opts) in
  if negb api_key_configured then throw ApiKeyNotConfigured
  else
    let systemMessage :=
      match find (fun m => role_eqb (msg_role m) system) messages with
      | Some m => content m
      | None => ""
      end in
    let previousHistory :=
      map (fun m => (msg_role m, content m))
          (removelast (filter (fun m => negb (role_eqb (msg_role m) system))
                              messages)) in
    match last (map Some messages) None with
    | None => throw (TypeError "Cannot read properties of undefined")
    | Some lastMessage =>
        response <- fetch {|
          providers := provider;
          text := content lastMessage;
          chatbot_global_action :=
            if String.eqb systemMessage "" then "You are a helpful AI assistant."
            else systemMessage;
          previous_history := previousHistory;
          temperature := temperature;
          max_tokens := maxTokens |} ;;
        lift (respond extract_chat provider response)
    end.

(** [const { maxRetries = 3, ...generateOptions } = options]. *)
Definition generateOptions_of (opts : options) : options :=
  {| opt_provider := opt_provider opts;
     opt_temperature := opt_temperature opts;
     opt_maxTokens := opt_maxTokens opts;
     opt_maxRetries := None |}.

(** The [for] loop of [generateTextWithRetry].  [fuel] bounds the number
    of iterations the model runs; the loop itself decides when it ends.
    [delay] is an integer: the doubles [1000 * 2^k] are exact. *)
Fixpoint retry_loop (fuel : nat) (prompt : string) (generateOptions : options)
    (maxRetries attempt delay : Z) (lastError : option error) : M loop_exit :=
  match fuel with
  | O => ret OutOfFuel
  | S fuel' =>
      if (attempt <=? maxRetries)%Z then
        try_catch
          (text <- generateText prompt generateOptions ;; ret (Returned text))
          (fun error =>
             let lastError := Some error in
             if (attempt <? maxRetries)%Z then
               wait delay ;;;
               retry_loop fuel' prompt generateOptions maxRetries
                          (attempt + 1) (delay * 2) lastError
             else
               retry_loop fuel' prompt generateOptions maxRetries
                          (attempt + 1) delay lastError)
      else ret (Exhausted lastError)
  end.

Definition FALLBACK_PROVIDER : string := "google/gemini-1.5-flash".

(** [generateOptions.provider || DEFAULT_PROVIDER]. *)
Definition currentProvider_of (generateOptions : options) : string :=
  match opt_provider generateOptions with
  | Some p => if String.eqb p "" then DEFAULT_PROVIDER else p
  | None => DEFAULT_PROVIDER
  end.

(** [{ ...generateOptions, provider: 'google/gemini-1.5-flash' }]. *)
Definition fallbackOptions (generateOptions : options) : options :=
  {| opt_provider := Some FALLBACK_PROVIDER;
     opt_temperature := opt_temperature generateOptions;
     opt_maxTokens := opt_maxTokens generateOptions;
     opt_maxRetries := opt_maxRetries generateOptions |}.

(** What follows the loop: the fallback call when the provider qualifies,
    then [throw lastError || new Error(...)]. *)
Definition after_retries (prompt : string) (generateOptions : options)
    (lastError : option error) : M jsval :=
  let rethrow : M jsval := throw (with_default FailedAfterRetries lastError) in
  let currentProvider := currentProvider_of generateOptions in
  if Js.includes currentProvider "openai" then
    try_catch (generateText prompt (fallbackOptions generateOptions))
              (fun fallbackError => rethrow)
  else rethrow.

(** The [maxRetries] in force: 3 unless the caller gives one. *)
Definition maxRetries_of (opts : options) : Z :=
  with_default 3%Z (opt_maxRetries opts).

(** [generateTextWithRetry]; [None] when [fuel] runs out before the loop
    ends. *)
Definition generateTextWithRetry (fuel : nat) (prompt : string) (opts : options)
  : world -> option (outcome jsval * world) :=
  let maxRetries := maxRetries_of opts in
  let generateOptions := generateOptions_of opts in
  fun w =>
    match retry_loop fuel prompt generateOptions maxRetries 1 1000 None w with
    | (Returns (Returned text), w') => Some (Returns text, w')
    | (Returns (Exhausted lastError), w') =>
        Some (after_retries prompt generateOptions lastError w')
    | (Returns OutOfFuel, _) => None
    | (Throws e, w') => Some (Throws e, w')
    end.

(** *** Observables of a run, used to state the properties *)

(** The events one [generateText] call adds to the trace. *)
Definition call_events (prompt : string) (opts : options) : list event :=
  Invoked (with_default DEFAULT_PROVIDER (opt_provider opts))
  :: (if api_key_configured then [Fetched (generateText_body prompt opts)]
      else []).

(** How a [generateText] call ends when [n] fetches came before it. *)
Definition call_result (prompt : string) (opts : options) (n : nat)
  : outcome jsval :=
  if negb api_key_configured then Throws ApiKeyNotConfigured
  else respond extract_generateText
         (with_default DEFAULT_PROVIDER (opt_provider opts))
         (network n (generateText_body prompt opts)).

(** The trace of [j] failed attempts, each followed by its wait, the
    first wait being [delay]. *)
Fixpoint failing_trace (prompt : string) (opts : options) (j : nat) (delay : Z)
  : list event :=
  match j with
  | O => []
  | S j' =>
      (call_events prompt opts ++ [Slept delay]
       ++ failing_trace prompt opts j' (delay * 2))%list
  end.

(** The trace of [n] failed attempts that use up the loop: a wait after
    each but the last. *)
Definition exhausted_trace (prompt : string) (opts : options) (n : nat)
  : list event :=
  match n with
  | O => []
  | S n' => (failing_trace prompt opts n' 1000 ++ call_events prompt opts)%list
  end.

(** [JSON.parse(source)], with the call recorded. *)
Definition parse_call (source : string) : M json :=
  emit (Parsed source) ;;;
  match JSON_parse source with
  | Some v => ret v
  | None => throw (Rejected "SyntaxError")
  end.

Definition parseJSONResponse (response : string) : M json :=
  if String.eqb response "" || (String.length (Js.trim response) =? 0)%nat
  then throw EmptyInput
  else
    let cleaned := select_span (strip_fences response) in
    try_catch (parse_call cleaned)
      (fun error =>
         try_catch
           (let fixed := fix_commas cleaned in parse_call fixed)
           (fun fixError => throw InvalidJSON)).

End Service.

(** ** Definitions that follow the specification's words *)

Definition baseDelay : Z := 1000.

(** The wait the specification prescribes after failed attempt [k]:
    [baseDelay * 2^(k-1)]. *)
Definition backoff (k : Z) : Z := baseDelay * 2 ^ (k - 1).

(** The backoff sequence after failed attempts [1..j]. *)
Definition backoff_sequence (j : nat) : list Z :=
  map (fun k => backoff (Z.of_nat k)) (seq 1 j).

Definition total (l : list Z) : Z := fold_right Z.add 0%Z l.

Definition is_opener (c : ascii) : bool := Ascii.eqb c "{" || Ascii.eqb c "[".

Definition closer_of (c : ascii) : ascii := if Ascii.eqb c "{" then "}" else "]".

(** Bracket balance: every closer closes the innermost open bracket of
    its own kind, and nothing stays open. *)
Fixpoint balanced_from (stack : list ascii) (s : string) : bool :=
  match s with
  | EmptyString => match stack with [] => true | _ :: _ => false end
  | String c s' =>
      if is_opener c then balanced_from (closer_of c :: stack) s'
      else if Ascii.eqb c "}" || Ascii.eqb c "]" then
        match stack with
        | expected :: stack' =>
            Ascii.eqb c expected && balanced_from stack' s'
        | [] => false
        end
      else balanced_from stack s'
  end.

Definition balanced (s : string) : bool := balanced_from [] s.

(** The text up to the closer that empties [stack]. *)
Fixpoint close_span (stack : list ascii) (s : string) : option string :=
  match s with
  | EmptyString => None
  | String c s' =>
      if is_opener c then option_map (String c) (close_span (closer_of c :: stack) s')
      else if Ascii.eqb c "}" || Ascii.eqb c "]" then
        match stack with
        | [expected] =>
            if Ascii.eqb c expected then Some (String c EmptyString) else None
        | expected :: stack' =>
            if Ascii.eqb c expected then option_map (String c) (close_span stack' s')
            else None
        | [] => None
        end
      else option_map (String c) (close_span stack s')
  end.

(** The first balanced [{...}] or [[...]] span of [s]: from the first
    opener whose brackets close, through the closer that matches it. *)
Fixpoint first_balanced_span (s : string) : option string :=
  match s with
  | EmptyString => None
  | String c s' =>
      match (if is_opener c
             then option_map (String c) (close_span [closer_of c] s')
             else None) with
      | Some m => Some m
      | None => first_balanced_span s'
      end
  end.

(** [c] occurs in [s]. *)
Fixpoint occurs (c : ascii) (s : string) : bool :=
  match s with
  | EmptyString => false
  | String x s' => Ascii.eqb x c || occurs c s'
  end.

(** What the regular expression of [parseJSONResponse] selects in [s]:
    [m] starts at an opener and ends at the last closer of that opener's
    kind in [s], and no opener to the left of [m] has a closer of its own
    kind anywhere to its right. *)
Definition greedy_span (s m : string) : Prop :=
  exists (pre post body : string) (o : ascii),
    s = (pre ++ m ++ post)%string
    /\ is_opener o = true
    /\ m = String o (body ++ String (closer_of o) EmptyString)
    /\ occurs (closer_of o) post = false
    /\ forall pre1 c pre2,
         pre = (pre1 ++ String c pre2)%string ->
         is_opener c = true ->
         occurs (closer_of c) (pre2 ++ m ++ post) = false.

(** ** Concrete inputs *)

Module Sample.

Definition no_options : options :=
  {| opt_provider := None; opt_temperature := None;
     opt_maxTokens := None; opt_maxRetries := None |}.

Definition with_maxRetries (n : Z) : options :=
  {| opt_provider := None; opt_temperature := None;
     opt_maxTokens := None; opt_maxRetries := Some n |}.

Definition gemini_options : options :=
  {| opt_provider := Some "google/gemini-1.5-pro"; opt_temperature := None;
     opt_maxTokens := None; opt_maxRetries := None |}.

Definition key : option string := Some "test-key".

(** [{ provider: { generated_text: text } }]. *)
Definition answer (provider text : string) : object :=
  [(provider, JObj [("generated_text", JStr text)])].

(** A body whose one entry reports a failure. *)
Definition quota_exceeded : object :=
  [("openai/gpt-4o-mini",
    JObj [("status", JStr "fail");
          ("error", JObj [("message", JStr "quota exceeded")])])].

(** A body without the requested key, whose one entry carries text and a
    failure status. *)
Definition failed_with_text : object :=
  [("mistral/small",
    JObj [("status", JStr "fail"); ("generated_text", JStr "partial")])].

(** A body without the requested key, whose one entry carries blank text. *)
Definition blank_elsewhere : object :=
  [("mistral/small", JObj [("generated_text", JStr "   ")])].

(** The network that always answers 200 with [data]. *)
Definition always (data : object) : nat -> request -> http_outcome :=
  fun _ _ => HttpOk data.

(** The network that answers 503 to the first [failures] fetches and
    then echoes the provider it is asked for. *)
Definition recovering (failures : nat) : nat -> request -> http_outcome :=
  fun n req =>
    if (n <? failures)%nat then HttpError 503 "unavailable"
    else HttpOk (answer (providers req) "done").

(** The network that answers 503 to the primary provider only. *)
Definition primary_down : nat -> request -> http_outcome :=
  fun _ req =>
    if String.eqb (providers req) DEFAULT_PROVIDER
    then HttpError 503 "unavailable"
    else HttpOk (answer (providers req) "from the fallback").

(** The network that answers 503 to the primary provider and 429 to
    every other. *)
Definition both_down : nat -> request -> http_outcome :=
  fun _ req =>
    if String.eqb (providers req) DEFAULT_PROVIDER
    then HttpError 503 "unavailable"
    else HttpError 429 "fallback refused".

Definition hello : list ChatMessage := [{| msg_role := user; content := "hello" |}].

(** The text [```json\n{"a":1,}\n```]. *)
Definition fenced : string :=
  ("```json" ++ String newline ("{" ++ quoted "a" ++ ":1,}"
   ++ String newline "```"))%string.

Definition with_trailing_comma : string := ("{" ++ quoted "a" ++ ":1,}")%string.

Definition repaired : string := ("{" ++ quoted "a" ++ ":1}")%string.

(** The text [{"a":1} and {"b":2}]. *)
Definition two_objects : string :=
  ("{" ++ quoted "a" ++ ":1} and {" ++ quoted "b" ++ ":2}")%string.

Definition first_object : string := repaired.

End Sample.

(** The specification's reading of a failure class that the retry
    controller does not retry: as soon as a primary attempt fails with an
    error of that class, the invocation ends with that error, no further
    call having been made. *)
Definition terminal_class (c : error_class) : Prop :=
  forall (key : option string) (network : nat -> request -> http_outcome)
         (fuel : nat) (prompt : string) (opts : options) (w : world) (e : error),
    (Z.to_nat (maxRetries_of opts) < fuel)%nat ->
    (1 <= maxRetries_of opts)%Z ->
    call_result key network prompt (generateOptions_of opts) (fetch_count w)
    = Throws e ->
    classify e = Some c ->
    exists d,
      generateTextWithRetry key network fuel prompt opts w
      = Some (Throws e, (w ++ d)%list)
      /\ List.length (invocations d) = 1%nat.

(** ** Definitions for the further properties *)

(** Every character of [s] is white space. *)
Fixpoint all_whitespace (s : string) : bool :=
  match s with
  | EmptyString => true
  | String c s' => Js.is_whitespace c && all_whitespace s'
  end.

(** The number of backticks [s] begins with. *)
Fixpoint leading_backticks (s : string) : nat :=
  match s with
  | String c s' => if Ascii.eqb c "`" then S (leading_backticks s') else O
  | EmptyString => O
  end.

Module Scenario.

(** A conversation with a system message, two earlier turns and a last
    question. *)
Definition conversation : list ChatMessage :=
  [ {| msg_role := system; content := "Be brief." |};
    {| msg_role := user; content := "first question" |};
    {| msg_role := assistant; content := "first answer" |};
    {| msg_role := user; content := "second question" |} ].

(** An entry with text and an error payload, but no failure status. *)
Definition text_and_error : object :=
  [("openai/gpt-4o-mini",
    JObj [("generated_text", JStr "partial answer");
          ("error", JObj [("message", JStr "stream interrupted")])])].

(** The network that answers 503 to even fetches and 200 to odd ones. *)
Definition flaky : nat -> request -> http_outcome :=
  fun n req =>
    if Nat.even n then HttpError 503 "unavailable"
    else HttpOk (Sample.answer (providers req) "done").

End Scenario.

(** * Properties *)

Local Open Scope list_scope.

(** ** Traces *)

Lemma fetch_count_app (w d : world) :
  fetch_count (w ++ d) = (fetch_count w + fetch_count d)%nat.
Proof.
  unfold fetch_count. rewrite filter_app, length_app. reflexivity.
Qed.

Lemma invocations_app (w d : world) :
  invocations (w ++ d) = (invocations w ++ invocations d)%list.
Proof. unfold invocations. apply flat_map_app. Qed.

Lemma sleeps_app (w d : world) :
  sleeps (w ++ d) = (sleeps w ++ sleeps d)%list.
Proof. unfold sleeps. apply flat_map_app. Qed.

Lemma fetches_app (w d : world) :
  fetches (w ++ d) = (fetches w ++ fetches d)%list.
Proof. unfold fetches. apply flat_map_app. Qed.

Lemma total_app (l1 l2 : list Z) : total (l1 ++ l2) = (total l1 + total l2)%Z.
Proof.
  induction l1 as [|x l1 IH]; simpl; [reflexivity|].
  rewrite IH. lia.
Qed.

(** ** Errors of the runtime *)

Lemma member_throws (v : jsval) (name : string) (e : error) :
  member v name = Throws e -> classify e = None.
Proof.
  unfold member. destruct v as [|[]|[]]; intros H; try discriminate H;
    injection H as <-; reflexivity.
Qed.

Lemma log_providerResponse_throws (v : jsval) (e : error) :
  log_providerResponse v = Throws e -> classify e = None.
Proof.
  unfold log_providerResponse.
  destruct (JSON_stringify_val v); intros H; [discriminate H|].
  injection H as <-. reflexivity.
Qed.

(** An error of the runtime belongs to no class of the taxonomy. *)
Ltac runtime_error :=
  match goal with
  | E : member _ _ = Throws _ |- _ => rewrite (member_throws _ _ _ E)
  | E : log_providerResponse _ = Throws _ |- _ =>
      rewrite (log_providerResponse_throws _ _ E)
  end.

Section Properties.

Variable EDENAI_API_KEY : option string.
Variable network : nat -> request -> http_outcome.

Local Abbreviation configured := (api_key_configured EDENAI_API_KEY).
Local Abbreviation generateText' := (generateText EDENAI_API_KEY network).
Local Abbreviation call_events' := (call_events EDENAI_API_KEY).
Local Abbreviation call_result' := (call_result EDENAI_API_KEY network).
Local Abbreviation failing_trace' := (failing_trace EDENAI_API_KEY).
Local Abbreviation exhausted_trace' := (exhausted_trace EDENAI_API_KEY).
Local Abbreviation after_retries' := (after_retries EDENAI_API_KEY network).
Local Abbreviation retry_loop' := (retry_loop EDENAI_API_KEY network).
Local Abbreviation generateTextWithRetry' :=
  (generateTextWithRetry EDENAI_API_KEY network).

(** One call of [generateText]: its outcome is decided by the fetch it
    issues, and it adds its own events to the trace. *)
Lemma generateText_run (prompt : string) (opts : options) (w : world) :
  generateText' prompt opts w
  = (call_result' prompt opts (fetch_count w), (w ++ call_events' prompt opts)%list).
Proof.
  unfold generateText, call_result, call_events, bind, emit, throw, fetch, lift.
  destruct configured; simpl.
  - rewrite fetch_count_app. simpl. rewrite Nat.add_0_r.
    rewrite <- app_assoc. reflexivity.
  - reflexivity.
Qed.

Lemma fetch_count_call_events (prompt : string) (opts : options) :
  fetch_count (call_events' prompt opts) = if configured then 1%nat else 0%nat.
Proof. unfold call_events. destruct configured; reflexivity. Qed.

(** The call that comes after one more call, and any number of waits,
    sees the next answer of the network. *)
Lemma call_result_shift (prompt : string) (opts : options) (w : world)
    (pause : list Z) (k : nat) :
  call_result' prompt opts
    (fetch_count (w ++ call_events' prompt opts ++ map Slept pause) + k)
  = call_result' prompt opts (fetch_count w + S k).
Proof.
  rewrite !fetch_count_app, fetch_count_call_events.
  assert (Hp : fetch_count (map Slept pause) = 0%nat).
  { unfold fetch_count. induction pause; simpl; auto. }
  rewrite Hp. unfold call_result.
  destruct configured; simpl; [|reflexivity].
  do 2 f_equal. lia.
Qed.

Lemma invocations_call_events (prompt : string) (opts : options) :
  invocations (call_events' prompt opts)
  = [with_default DEFAULT_PROVIDER (opt_provider opts)].
Proof. unfold call_events. destruct configured; reflexivity. Qed.

Lemma sleeps_call_events (prompt : string) (opts : options) :
  sleeps (call_events' prompt opts) = [].
Proof. unfold call_events. destruct configured; reflexivity. Qed.

Lemma invocations_failing_trace (prompt : string) (opts : options) (j : nat) :
  forall delay,
    invocations (failing_trace' prompt opts j delay)
    = repeat (with_default DEFAULT_PROVIDER (opt_provider opts)) j.
Proof.
  induction j as [|j IH]; intros delay; [reflexivity|].
  cbn [failing_trace].
  rewrite !invocations_app, invocations_call_events, IH. reflexivity.
Qed.

Lemma sleeps_failing_trace (prompt : string) (opts : options) (j : nat) :
  forall delay,
    sleeps (failing_trace' prompt opts j delay)
    = map (fun k => (delay * 2 ^ Z.of_nat k)%Z) (seq 0 j).
Proof.
  induction j as [|j IH]; intros delay; [reflexivity|].
  cbn [failing_trace].
  rewrite !sleeps_app, sleeps_call_events, IH.
  cbn [seq map app sleeps flat_map]. f_equal.
  - cbn. lia.
  - rewrite <- seq_shift, map_map. apply map_ext. intros k.
    rewrite Nat2Z.inj_succ, Z.pow_succ_r by lia. lia.
Qed.

Lemma fetch_count_failing_trace (prompt : string) (opts : options) (j : nat) :
  forall delay,
    fetch_count (failing_trace' prompt opts j delay)
    = if configured then j else 0%nat.
Proof.
  induction j as [|j IH]; intros delay.
  - destruct configured; reflexivity.
  - cbn [failing_trace].
    rewrite !fetch_count_app, fetch_count_call_events, IH.
    destruct configured; reflexivity.
Qed.

(** After [j] failed attempts the next call sees answer [j] of the run. *)
Lemma call_result_after_failures (prompt : string) (opts : options)
    (w : world) (j : nat) (delay : Z) :
  call_result' prompt opts (fetch_count (w ++ failing_trace' prompt opts j delay))
  = call_result' prompt opts (fetch_count w + j).
Proof.
  rewrite fetch_count_app, fetch_count_failing_trace. unfold call_result.
  destruct configured; reflexivity.
Qed.

(** ** The retry loop *)

(** One iteration of the loop, in terms of the outcome of its call. *)
Lemma retry_loop_step (fuel : nat) (prompt : string) (go : options)
    (maxRetries attempt delay : Z) (lastError : option error) (w : world) :
  retry_loop' (S fuel) prompt go maxRetries attempt delay lastError w
  = if (attempt <=? maxRetries)%Z then
      match call_result' prompt go (fetch_count w) with
      | Returns text => (Returns (Returned text), w ++ call_events' prompt go)
      | Throws e =>
          if (attempt <? maxRetries)%Z then
            retry_loop' fuel prompt go maxRetries (attempt + 1) (delay * 2)
              (Some e) (w ++ call_events' prompt go ++ [Slept delay])
          else
            retry_loop' fuel prompt go maxRetries (attempt + 1) delay
              (Some e) (w ++ call_events' prompt go)
      end
    else (Returns (Exhausted lastError), w).
Proof.
  cbn [retry_loop].
  destruct (attempt <=? maxRetries)%Z; [|reflexivity].
  unfold try_catch, bind at 1. rewrite generateText_run.
  destruct (call_result' prompt go (fetch_count w)) as [text|e]; [reflexivity|].
  destruct (attempt <? maxRetries)%Z; [|reflexivity].
  unfold bind, wait, emit. rewrite <- app_assoc. reflexivity.
Qed.

(** [j] failures in a row, none of them on the last attempt: the loop
    has waited after each and stands at attempt [attempt + j] with the
    delay doubled [j] times and the last of the errors recorded. *)
Lemma retry_loop_failing_prefix (prompt : string) (go : options) (maxRetries : Z) :
  forall (j fuel : nat) (err : nat -> error) (attempt delay : Z)
         (lastError : option error) (w : world),
    (forall k, (k < j)%nat ->
               call_result' prompt go (fetch_count w + k) = Throws (err k)) ->
    (attempt + Z.of_nat j <= maxRetries)%Z ->
    retry_loop' (j + fuel) prompt go maxRetries attempt delay lastError w
    = retry_loop' fuel prompt go maxRetries
        (attempt + Z.of_nat j) (delay * 2 ^ Z.of_nat j)
        (match j with O => lastError | S j' => Some (err j') end)
        (w ++ failing_trace' prompt go j delay).
Proof.
  induction j as [|j IH]; intros fuel err attempt delay lastError w Hfail Hle.
  - cbn [failing_trace Nat.add Z.of_nat].
    rewrite Z.add_0_r, Z.pow_0_r, Z.mul_1_r, app_nil_r. reflexivity.
  - cbn [Nat.add]. rewrite retry_loop_step.
    assert (H0 := Hfail 0%nat ltac:(lia)). rewrite Nat.add_0_r in H0.
    rewrite H0.
    replace (attempt <=? maxRetries)%Z with true by (symmetry; apply Z.leb_le; lia).
    replace (attempt <? maxRetries)%Z with true by (symmetry; apply Z.ltb_lt; lia).
    rewrite (IH fuel (fun k => err (S k))).
    + cbn [failing_trace]. rewrite <- !app_assoc.
      f_equal; [lia | | destruct j; reflexivity].
      rewrite Nat2Z.inj_succ, Z.pow_succ_r by lia. lia.
    + intros k Hk.
      rewrite <- (Hfail (S k)) by lia.
      apply (call_result_shift prompt go w [delay] k).
    + lia.
Qed.

(** A success ends the loop at once. *)
Lemma retry_loop_success (fuel : nat) (prompt : string) (go : options)
    (maxRetries attempt delay : Z) (lastError : option error) (w : world)
    (text : jsval) :
  (attempt <= maxRetries)%Z ->
  call_result' prompt go (fetch_count w) = Returns text ->
  retry_loop' (S fuel) prompt go maxRetries attempt delay lastError w
  = (Returns (Returned text), w ++ call_events' prompt go).
Proof.
  intros Hle Hok. rewrite retry_loop_step, Hok.
  replace (attempt <=? maxRetries)%Z with true by (symmetry; apply Z.leb_le; lia).
  reflexivity.
Qed.

(** A failure on the last attempt ends the loop without a wait. *)
Lemma retry_loop_last_failure (fuel : nat) (prompt : string) (go : options)
    (maxRetries delay : Z) (lastError : option error) (w : world) (e : error) :
  call_result' prompt go (fetch_count w) = Throws e ->
  retry_loop' (S (S fuel)) prompt go maxRetries maxRetries delay lastError w
  = (Returns (Exhausted (Some e)), w ++ call_events' prompt go).
Proof.
  intros Hfail. rewrite retry_loop_step, Hfail.
  rewrite Z.leb_refl, Z.ltb_irrefl, retry_loop_step.
  replace (maxRetries + 1 <=? maxRetries)%Z with false
    by (symmetry; apply Z.leb_gt; lia).
  reflexivity.
Qed.

(** The loop ends within [maxRetries + 1 - attempt] iterations, and more
    fuel than that changes nothing. *)
Lemma retry_loop_fuel (prompt : string) (go : options) (maxRetries : Z) :
  forall (fuel fuel' : nat) (attempt delay : Z) (lastError : option error)
         (w : world),
    (Z.to_nat (maxRetries + 1 - attempt) < fuel)%nat ->
    (Z.to_nat (maxRetries + 1 - attempt) < fuel')%nat ->
    retry_loop' fuel prompt go maxRetries attempt delay lastError w
    = retry_loop' fuel' prompt go maxRetries attempt delay lastError w
    /\ fst (retry_loop' fuel prompt go maxRetries attempt delay lastError w)
       <> Returns OutOfFuel.
Proof.
  induction fuel as [|fuel IH]; intros fuel' attempt delay lastError w H H';
    [lia|].
  destruct fuel' as [|fuel']; [lia|].
  rewrite !retry_loop_step.
  destruct (attempt <=? maxRetries)%Z eqn:Hle; [|split; [reflexivity|discriminate]].
  apply Z.leb_le in Hle.
  destruct (call_result' prompt go (fetch_count w));
    [split; [reflexivity|discriminate]|].
  destruct (attempt <? maxRetries)%Z; apply IH; lia.
Qed.

(** [generateTextWithRetry] returns or throws as soon as its fuel exceeds
    [maxRetries]. *)
Lemma generateTextWithRetry_terminates (fuel : nat) (prompt : string)
    (opts : options) (w : world) :
  (Z.to_nat (maxRetries_of opts) < fuel)%nat ->
  generateTextWithRetry' fuel prompt opts w <> None.
Proof.
  intros Hfuel. unfold generateTextWithRetry.
  pose proof (proj2 (retry_loop_fuel prompt (generateOptions_of opts)
                       (maxRetries_of opts) fuel fuel 1 1000 None w
                       ltac:(lia) ltac:(lia))) as Hend.
  destruct (retry_loop' fuel prompt (generateOptions_of opts)
              (maxRetries_of opts) 1 1000 None w) as [[[text|lastError|]|e] w'];
    try discriminate.
  exfalso. apply Hend. reflexivity.
Qed.

(** [n] failed attempts use up the loop, the last without a wait. *)
Lemma retry_loop_exhausted (prompt : string) (go : options) (maxRetries : Z)
    (fuel : nat) (err : nat -> error) (w : world) :
  let n := Z.to_nat maxRetries in
  (n < fuel)%nat ->
  (forall k, (k < n)%nat ->
             call_result' prompt go (fetch_count w + k) = Throws (err k)) ->
  retry_loop' fuel prompt go maxRetries 1 1000 None w
  = (Returns (Exhausted (match n with O => None | S n' => Some (err n') end)),
     w ++ exhausted_trace' prompt go n).
Proof.
  intros n Hfuel Hfail. subst n. unfold exhausted_trace.
  destruct (Z.to_nat maxRetries) as [|n'] eqn:En.
  - destruct fuel as [|fuel]; [lia|].
    rewrite retry_loop_step, app_nil_r.
    replace (1 <=? maxRetries)%Z with false by (symmetry; apply Z.leb_gt; lia).
    reflexivity.
  - replace fuel with (n' + S (S (fuel - S (S n'))))%nat by lia.
    rewrite (retry_loop_failing_prefix prompt go maxRetries n' _ err)
      by (try lia; intros k Hk; apply Hfail; lia).
    replace (1 + Z.of_nat n')%Z with maxRetries by lia.
    rewrite (retry_loop_last_failure _ _ _ _ _ _ _ (err n')).
    + rewrite <- app_assoc. reflexivity.
    + rewrite call_result_after_failures. apply Hfail. lia.
Qed.

Lemma invocations_exhausted_trace (prompt : string) (opts : options) (n : nat) :
  invocations (exhausted_trace' prompt opts n)
  = repeat (with_default DEFAULT_PROVIDER (opt_provider opts)) n.
Proof.
  destruct n as [|n']; [reflexivity|]. unfold exhausted_trace.
  rewrite invocations_app, invocations_failing_trace, invocations_call_events.
  symmetry. cbn [repeat]. apply repeat_cons.
Qed.

Lemma fetch_count_exhausted_trace (prompt : string) (opts : options) (n : nat) :
  fetch_count (exhausted_trace' prompt opts n) = if configured then n else 0%nat.
Proof.
  destruct n as [|n']; [destruct configured; reflexivity|].
  unfold exhausted_trace.
  rewrite fetch_count_app, fetch_count_failing_trace, fetch_count_call_events.
  destruct configured; lia.
Qed.

(** What follows the loop, in terms of the outcome of the fallback call. *)
Lemma after_retries_run (prompt : string) (go : options)
    (lastError : option error) (w : world) :
  after_retries' prompt go lastError w
  = if Js.includes (currentProvider_of go) "openai" then
      (match call_result' prompt (fallbackOptions go) (fetch_count w) with
       | Returns text => Returns text
       | Throws _ => Throws (with_default FailedAfterRetries lastError)
       end,
       w ++ call_events' prompt (fallbackOptions go))
    else (Throws (with_default FailedAfterRetries lastError), w).
Proof.
  unfold after_retries.
  destruct (Js.includes (currentProvider_of go) "openai"); [|reflexivity].
  unfold try_catch. rewrite generateText_run.
  destruct (call_result' prompt (fallbackOptions go) (fetch_count w)); reflexivity.
Qed.

(** A provider of the openai family is not the fallback provider. *)
Lemma primary_is_not_fallback (go : options) :
  Js.includes (currentProvider_of go) "openai" = true ->
  with_default DEFAULT_PROVIDER (opt_provider go) <> FALLBACK_PROVIDER.
Proof.
  unfold currentProvider_of. destruct (opt_provider go) as [p|]; cbn [with_default].
  - intros Hinc ->. revert Hinc. vm_compute. discriminate.
  - intros _. vm_compute. discriminate.
Qed.

(** ** The backoff sequence *)

Lemma backoff_sequence_doubling (j : nat) :
  map (fun k => (1000 * 2 ^ Z.of_nat k)%Z) (seq 0 j) = backoff_sequence j.
Proof.
  unfold backoff_sequence. rewrite <- seq_shift, map_map.
  apply map_ext. intros k. unfold backoff, baseDelay.
  do 2 f_equal. lia.
Qed.

Lemma total_backoff_sequence (j : nat) :
  total (backoff_sequence j) = (baseDelay * (2 ^ Z.of_nat j - 1))%Z.
Proof.
  rewrite <- backoff_sequence_doubling. unfold baseDelay.
  induction j as [|j IH]; [reflexivity|].
  rewrite seq_S, map_app, total_app, IH. cbn [Nat.add map total fold_right].
  rewrite Nat2Z.inj_succ, Z.pow_succ_r by lia. lia.
Qed.

(** ** The retry controller *)

Lemma call_result_configured (prompt : string) (opts : options) (n : nat)
    (text : jsval) :
  call_result' prompt opts n = Returns text -> configured = true.
Proof.
  unfold call_result. destruct configured; [reflexivity|discriminate].
Qed.

(** C8.  When the first primary call succeeds, [generateTextWithRetry]
    returns its text in the world that call leaves: the run consists of
    that one call and its one fetch, with no wait, no further attempt and
    no fallback call. *)
Theorem first_attempt_success (fuel : nat) (prompt : string) (opts : options)
    (w w1 : world) (text : jsval) :
  (Z.to_nat (maxRetries_of opts) < fuel)%nat ->
  (1 <= maxRetries_of opts)%Z ->
  generateText' prompt (generateOptions_of opts) w = (Returns text, w1) ->
  generateTextWithRetry' fuel prompt opts w = Some (Returns text, w1)
  /\ exists d,
       w1 = w ++ d
       /\ sleeps d = []
       /\ fetches d = [generateText_body prompt (generateOptions_of opts)]
       /\ invocations d
          = [with_default DEFAULT_PROVIDER (opt_provider (generateOptions_of opts))].
Proof.
  intros Hfuel Hmax Hcall.
  rewrite generateText_run in Hcall. injection Hcall as Hres Hw1.
  split.
  - unfold generateTextWithRetry.
    destruct fuel as [|fuel]; [lia|].
    rewrite (retry_loop_success _ _ _ _ _ _ _ _ text) by assumption.
    rewrite Hw1. reflexivity.
  - exists (call_events' prompt (generateOptions_of opts)).
    repeat split.
    + symmetry. exact Hw1.
    + apply sleeps_call_events.
    + unfold call_events. rewrite (call_result_configured _ _ _ _ Hres). reflexivity.
    + apply invocations_call_events.
Qed.

(** C2.  When attempts 1..maxRetries-1 fail and the last attempt succeeds,
    the text of that attempt is returned, the wait after failed attempt
    [k] is [baseDelay * 2^(k-1)] with [baseDelay = 1000], and the waits
    add up to the sum of that sequence. *)
Theorem last_attempt_success (fuel : nat) (prompt : string) (opts : options)
    (w : world) (err : nat -> error) (text : jsval) :
  let n := Z.to_nat (maxRetries_of opts) in
  let go := generateOptions_of opts in
  (n < fuel)%nat ->
  (1 <= n)%nat ->
  (forall k, (k < n - 1)%nat ->
             call_result' prompt go (fetch_count w + k) = Throws (err k)) ->
  call_result' prompt go (fetch_count w + (n - 1)) = Returns text ->
  exists d,
    generateTextWithRetry' fuel prompt opts w = Some (Returns text, w ++ d)
    /\ sleeps d = backoff_sequence (n - 1)
    /\ (forall k, (1 <= k < n)%nat ->
                  nth_error (sleeps d) (k - 1) = Some (baseDelay * 2 ^ (Z.of_nat k - 1))%Z)
    /\ total (sleeps d) = total (backoff_sequence (n - 1))
    /\ total (sleeps d) = (baseDelay * (2 ^ Z.of_nat (n - 1) - 1))%Z
    /\ List.length (invocations d) = n.
Proof.
  intros n go Hfuel Hn Hfail Hok.
  exists (failing_trace' prompt go (n - 1) 1000 ++ call_events' prompt go).
  assert (Hs : sleeps (failing_trace' prompt go (n - 1) 1000 ++ call_events' prompt go)
               = backoff_sequence (n - 1)).
  { rewrite sleeps_app, sleeps_call_events, app_nil_r, sleeps_failing_trace.
    apply backoff_sequence_doubling. }
  repeat split.
  - unfold generateTextWithRetry. fold go.
    replace fuel with ((n - 1) + S (fuel - n))%nat by lia.
    rewrite (retry_loop_failing_prefix prompt go _ (n - 1) _ err)
      by (try assumption; subst n; lia).
    rewrite (retry_loop_success _ _ _ _ _ _ _ _ text).
    + rewrite <- app_assoc. reflexivity.
    + subst n. lia.
    + rewrite call_result_after_failures. exact Hok.
  - exact Hs.
  - intros k Hk. rewrite Hs. unfold backoff_sequence.
    rewrite nth_error_map, nth_error_seq.
    replace (k - 1 <? n - 1)%nat with true by (symmetry; apply Nat.ltb_lt; lia).
    cbn [option_map]. unfold backoff. do 4 f_equal. lia.
  - rewrite Hs. reflexivity.
  - rewrite Hs. apply total_backoff_sequence.
  - rewrite invocations_app, invocations_call_events, invocations_failing_trace.
    rewrite length_app, repeat_length. cbn. lia.
Qed.

Lemma sleeps_exhausted_trace (prompt : string) (opts : options) (n : nat) :
  sleeps (exhausted_trace' prompt opts n) = backoff_sequence (n - 1).
Proof.
  destruct n as [|n']; [reflexivity|]. unfold exhausted_trace.
  rewrite sleeps_app, sleeps_call_events, app_nil_r, sleeps_failing_trace.
  rewrite Nat.sub_succ, Nat.sub_0_r. apply backoff_sequence_doubling.
Qed.

(** When every primary attempt fails, the run is the exhausted loop
    followed by what comes after it. *)
Lemma exhausted_run (fuel : nat) (prompt : string) (opts : options)
    (w : world) (err : nat -> error) :
  let n := Z.to_nat (maxRetries_of opts) in
  let go := generateOptions_of opts in
  (n < fuel)%nat ->
  (forall k, (k < n)%nat ->
             call_result' prompt go (fetch_count w + k) = Throws (err k)) ->
  generateTextWithRetry' fuel prompt opts w
  = Some (after_retries' prompt go
            (match n with O => None | S n' => Some (err n') end)
            (w ++ exhausted_trace' prompt go n)).
Proof.
  intros n go Hfuel Hfail. unfold generateTextWithRetry. fold go.
  rewrite (retry_loop_exhausted prompt go _ fuel err) by assumption.
  reflexivity.
Qed.

Lemma call_result_after_exhaustion (prompt : string) (go opts : options)
    (w : world) (n : nat) :
  call_result' prompt opts (fetch_count (w ++ exhausted_trace' prompt go n))
  = call_result' prompt opts (fetch_count w + n).
Proof.
  rewrite fetch_count_app, fetch_count_exhausted_trace. unfold call_result.
  destruct configured; reflexivity.
Qed.

(** C1.  When every primary attempt fails and the provider in force is of
    the openai family, the fallback provider is called exactly once, after
    the primary attempts and with no retry; its text is returned when it
    succeeds, and when it fails the error raised is the one the last
    primary attempt recorded, whatever the fallback's own error (with no
    primary attempt at all there is none, and the generic error stands
    in). *)
Theorem fallback_after_exhaustion (fuel : nat) (prompt : string) (opts : options)
    (w : world) (err : nat -> error) :
  let n := Z.to_nat (maxRetries_of opts) in
  let go := generateOptions_of opts in
  let fallback := call_result' prompt (fallbackOptions go) (fetch_count w + n) in
  (n < fuel)%nat ->
  (forall k, (k < n)%nat ->
             call_result' prompt go (fetch_count w + k) = Throws (err k)) ->
  Js.includes (currentProvider_of go) "openai" = true ->
  exists d final,
    generateTextWithRetry' fuel prompt opts w = Some (final, w ++ d)
    /\ invocations d
       = repeat (with_default DEFAULT_PROVIDER (opt_provider go)) n
         ++ [FALLBACK_PROVIDER]
    /\ count_occ string_dec (invocations d) FALLBACK_PROVIDER = 1%nat
    /\ (forall text, fallback = Returns text -> final = Returns text)
    /\ (forall fallbackError,
          fallback = Throws fallbackError ->
          final = Throws (match n with
                          | O => FailedAfterRetries
                          | S n' => err n'
                          end)).
Proof.
  intros n go fallback Hfuel Hfail Hfamily.
  pose proof (exhausted_run fuel prompt opts w err Hfuel Hfail) as Hrun.
  fold n go in Hrun.
  rewrite after_retries_run, Hfamily, call_result_after_exhaustion in Hrun.
  fold fallback in Hrun. rewrite <- app_assoc in Hrun.
  eexists. eexists. split; [exact Hrun|].
  assert (Hinv : invocations (exhausted_trace' prompt go n
                              ++ call_events' prompt (fallbackOptions go))
                 = repeat (with_default DEFAULT_PROVIDER (opt_provider go)) n
                   ++ [FALLBACK_PROVIDER]).
  { rewrite invocations_app, invocations_exhausted_trace, invocations_call_events.
    reflexivity. }
  repeat split.
  - exact Hinv.
  - rewrite Hinv, count_occ_app, count_occ_repeat_neq.
    + cbn. destruct (string_dec FALLBACK_PROVIDER FALLBACK_PROVIDER); congruence.
    + intros Heq. symmetry in Heq. revert Heq.
      apply primary_is_not_fallback, Hfamily.
  - intros text Hfb. rewrite Hfb. reflexivity.
  - intros fallbackError Hfb. rewrite Hfb. destruct n; reflexivity.
Qed.

(** C10.  With [maxRetries] zero or negative no primary call is made.  A
    provider of the openai family still gets its one fallback call, whose
    text is returned when it succeeds; in every other case the generic
    error is thrown, no primary error having been recorded. *)
Theorem no_primary_attempt_without_retries (fuel : nat) (prompt : string)
    (opts : options) (w : world) :
  let go := generateOptions_of opts in
  let fallback := call_result' prompt (fallbackOptions go) (fetch_count w) in
  (maxRetries_of opts <= 0)%Z ->
  (0 < fuel)%nat ->
  (Js.includes (currentProvider_of go) "openai" = true ->
   exists final,
     generateTextWithRetry' fuel prompt opts w
     = Some (final, w ++ call_events' prompt (fallbackOptions go))
     /\ invocations (call_events' prompt (fallbackOptions go)) = [FALLBACK_PROVIDER]
     /\ (forall text, fallback = Returns text -> final = Returns text)
     /\ (forall fallbackError,
           fallback = Throws fallbackError -> final = Throws FailedAfterRetries))
  /\ (Js.includes (currentProvider_of go) "openai" = false ->
      generateTextWithRetry' fuel prompt opts w = Some (Throws FailedAfterRetries, w))
  /\ message FailedAfterRetries = "Failed to generate text after retries"%string.
Proof.
  intros go fallback Hmax Hfuel.
  assert (Hn : Z.to_nat (maxRetries_of opts) = 0%nat) by lia.
  pose proof (exhausted_run fuel prompt opts w (fun _ => FailedAfterRetries)) as Hrun.
  cbv zeta in Hrun. rewrite Hn in Hrun. fold go in Hrun.
  specialize (Hrun Hfuel ltac:(intros k Hk; lia)).
  cbn [exhausted_trace] in Hrun. rewrite app_nil_r, after_retries_run in Hrun.
  fold fallback in Hrun.
  repeat split.
  - intros Hfamily. rewrite Hfamily in Hrun.
    eexists. split; [exact Hrun|]. repeat split.
    + apply invocations_call_events.
    + intros text Hfb. rewrite Hfb. reflexivity.
    + intros fallbackError Hfb. rewrite Hfb. reflexivity.
  - intros Hfamily. rewrite Hfamily in Hrun. exact Hrun.
Qed.

(** The errors of [generateText] are those of the transport and of the
    extraction: the two classes of [parseJSONResponse] are not among them. *)
Lemma extract_generateText_class (provider : string) (data : object) (e : error) :
  extract_generateText provider data = Throws e ->
  classify e <> Some MalformedJsonError /\ classify e <> Some EmptyInputError.
Proof.
  unfold extract_generateText, scan_generateText, check_providerResponse,
    bind_pure.
  intros H.
  repeat match type of H with
         | context [match ?x with _ => _ end] =>
             destruct x eqn:?; try discriminate H
         end;
    injection H as <-;
    try (split; discriminate);
    runtime_error; split; discriminate.
Qed.

Lemma call_result_class (prompt : string) (opts : options) (n : nat) (e : error) :
  call_result' prompt opts n = Throws e ->
  classify e <> Some MalformedJsonError /\ classify e <> Some EmptyInputError.
Proof.
  unfold call_result, respond.
  destruct configured; cbn [negb].
  - destruct (network n (generateText_body prompt opts)).
    + intros H. injection H as <-. split; discriminate.
    + intros H. injection H as <-. split; discriminate.
    + apply extract_generateText_class.
  - intros H. injection H as <-. split; discriminate.
Qed.

(** C5, as amended.  The retry controller does not look at the class of a
    failure.  When the primary attempts fail, with errors of whatever
    class, all [maxRetries] of them are made, each failure before the
    last being followed by its backoff wait; and no error that reaches
    the controller is a [MalformedJsonError], which only
    [parseJSONResponse] raises. *)
Theorem every_failure_is_retried (fuel : nat) (prompt : string) (opts : options)
    (w : world) (err : nat -> error) :
  let n := Z.to_nat (maxRetries_of opts) in
  let go := generateOptions_of opts in
  (n < fuel)%nat ->
  (forall k, (k < n)%nat ->
             call_result' prompt go (fetch_count w + k) = Throws (err k)) ->
  (exists d final,
      generateTextWithRetry' fuel prompt opts w = Some (final, w ++ d)
      /\ firstn n (invocations d)
         = repeat (with_default DEFAULT_PROVIDER (opt_provider go)) n
      /\ sleeps d = backoff_sequence (n - 1))
  /\ (forall k, (k < n)%nat -> classify (err k) <> Some MalformedJsonError).
Proof.
  intros n go Hfuel Hfail. split.
  - pose proof (exhausted_run fuel prompt opts w err Hfuel Hfail) as Hrun.
    fold n go in Hrun. rewrite after_retries_run in Hrun.
    destruct (Js.includes (currentProvider_of go) "openai").
    + rewrite <- app_assoc in Hrun.
      eexists. eexists. split; [exact Hrun|]. split.
      * rewrite invocations_app, invocations_exhausted_trace.
        rewrite firstn_app, repeat_length, Nat.sub_diag, firstn_O, app_nil_r.
        apply firstn_all2. rewrite repeat_length. lia.
      * rewrite sleeps_app, sleeps_exhausted_trace, sleeps_call_events.
        apply app_nil_r.
    + eexists. eexists. split; [exact Hrun|]. split.
      * rewrite invocations_exhausted_trace.
        apply firstn_all2. rewrite repeat_length. lia.
      * apply sleeps_exhausted_trace.
  - intros k Hk. exact (proj1 (call_result_class _ _ _ _ (Hfail k Hk))).
Qed.

End Properties.

(** ** Response extraction *)

Lemma filter_none {A} (f : A -> bool) (l : list A) :
  (forall x, In x l -> f x = false) -> filter f l = [].
Proof.
  induction l as [|a l IH]; intros H; [reflexivity|].
  cbn [filter]. rewrite (H a (or_introl eq_refl)).
  apply IH. intros x Hin. apply H. right. exact Hin.
Qed.

Section Extraction.

Variable provider : string.
Variable data : object.

Local Abbreviation exact := (data_get data provider).
Local Abbreviation base := (data_get data (hd ""%string (Js.split "/" provider))).
Local Abbreviation matched := (lookup_providerResponse data provider).

(** The order of the two keyed reads. *)
Lemma lookup_order :
  matched = if truthy exact then exact
            else if Js.includes provider "/" then base else exact.
Proof.
  unfold lookup_providerResponse.
  destruct (truthy exact); cbn [negb andb]; [reflexivity|].
  destruct (Js.includes provider "/"); reflexivity.
Qed.

(** A read on a truthy value does not throw. *)
Lemma member_truthy (v : jsval) (name : string) :
  truthy v = true -> member v name = Returns (opt_member v name).
Proof. destruct v as [|[]|[]]; cbn; congruence. Qed.

(** Neither does a read on a value that has a member. *)
Lemma member_of_holder (v : jsval) (name name' : string) :
  truthy (opt_member v name) = true ->
  member v name' = Returns (opt_member v name').
Proof. destruct v as [|[]|[]]; cbn; congruence. Qed.

(** A value that has a member is a value of the parsed response, and the
    log line that prints it does not throw. *)
Lemma log_of_holder (v : jsval) (name : string) :
  truthy (opt_member v name) = true -> log_providerResponse v = Returns tt.
Proof. destruct v as [|[]|[]]; cbn; congruence. Qed.

(** The scan stops at the first key that exposes text. *)
Lemma availableProviders_first (before after : list string) (k : string) :
  keys data = before ++ k :: after ->
  (forall k', In k' before -> exposes_text data k' = false) ->
  exposes_text data k = true ->
  availableProviders data = k :: filter (exposes_text data) after.
Proof.
  intros Hkeys Hbefore Hk. unfold availableProviders.
  rewrite Hkeys, filter_app. cbn [filter]. rewrite Hk.
  rewrite (filter_none _ _ Hbefore). reflexivity.
Qed.

Lemma availableProviders_none :
  availableProviders data = [] <->
  (forall k, In k (keys data) -> exposes_text data k = false).
Proof.
  unfold availableProviders. split.
  - intros Hnil k Hin.
    destruct (exposes_text data k) eqn:Hk; [|reflexivity].
    assert (Hf : In k (filter (exposes_text data) (keys data)))
      by (apply filter_In; split; assumption).
    rewrite Hnil in Hf. destruct Hf.
  - apply filter_none.
Qed.

(** The text of a scanned entry is returned as it is. *)
Lemma scan_returns_first (k : string) (rest : list string) :
  availableProviders data = k :: rest ->
  scan_generateText provider data
  = Returns (opt_member (data_get data k) "generated_text")
  /\ exposes_text data k = true.
Proof.
  intros Hav.
  assert (Hk : exposes_text data k = true).
  { assert (Hin : In k (availableProviders data)) by (rewrite Hav; left; reflexivity).
    unfold availableProviders in Hin. apply filter_In in Hin. apply Hin. }
  split; [|exact Hk].
  unfold scan_generateText. rewrite Hav.
  unfold exposes_text in Hk.
  rewrite (member_of_holder _ "generated_text" "generated_text" Hk).
  cbn [bind_pure]. unfold or_else. rewrite Hk. reflexivity.
Qed.

(** The checks never throw an error of the class of a missing entry. *)
Lemma check_is_not_NoResponse (v : jsval) (e : error) :
  check_providerResponse v = Throws e ->
  classify e <> Some NoProviderResponseError.
Proof.
  unfold check_providerResponse, bind_pure. intros H.
  repeat match type of H with
         | context [match ?x with _ => _ end] =>
             destruct x eqn:?; try discriminate H
         end;
    injection H as <-;
    try discriminate;
    runtime_error; discriminate.
Qed.

(** C3.  Extraction reads the entry under the exact key first, then, when
    that is falsy and the key has a model suffix, under the base name
    before the separator; a matched entry is the one it checks.  With no
    match it scans the keys in order and returns the text of the first
    entry that exposes any.  It fails with [NoProviderResponseError] only
    when no key matched and no entry exposes text.  The two examples of
    the specification both yield [hi], the second through the base name. *)
Theorem extraction_resolution :
  (truthy exact = true -> matched = exact)
  /\ (truthy exact = false -> Js.includes provider "/" = true -> matched = base)
  /\ (truthy exact = false -> Js.includes provider "/" = false ->
      truthy matched = false)
  /\ (truthy matched = true ->
      extract_generateText provider data = check_providerResponse matched)
  /\ (truthy matched = false ->
      forall before k after,
        keys data = before ++ k :: after ->
        (forall k', In k' before -> exposes_text data k' = false) ->
        exposes_text data k = true ->
        extract_generateText provider data
        = Returns (opt_member (data_get data k) "generated_text"))
  /\ (forall e,
        extract_generateText provider data = Throws e ->
        classify e = Some NoProviderResponseError ->
        truthy matched = false
        /\ forall k, In k (keys data) -> exposes_text data k = false)
  /\ (truthy matched = false ->
      (forall k, In k (keys data) -> exposes_text data k = false) ->
      extract_generateText provider data = Throws (NoResponse provider (Some data)))
  /\ extract_generateText "openai/gpt-4o-mini"
       (Sample.answer "openai/gpt-4o-mini" "hi") = Returns (Json (JStr "hi"))
  /\ (extract_generateText "openai/gpt-4o-mini" (Sample.answer "openai" "hi")
      = Returns (Json (JStr "hi"))
      /\ data_get (Sample.answer "openai" "hi") "openai/gpt-4o-mini" = Undefined
      /\ hd ""%string (Js.split "/" "openai/gpt-4o-mini") = "openai"%string).
Proof.
  repeat apply conj.
  - intros H. rewrite lookup_order, H. reflexivity.
  - intros H Hs. rewrite lookup_order, H, Hs. reflexivity.
  - intros H Hs. rewrite lookup_order, H, Hs. exact H.
  - intros H. unfold extract_generateText. rewrite H. reflexivity.
  - intros H before k after Hkeys Hbefore Hk.
    unfold extract_generateText. rewrite H. cbn [negb].
    apply (scan_returns_first k (filter (exposes_text data) after)).
    apply (availableProviders_first before); assumption.
  - intros e Hthrow Hclass. unfold extract_generateText in Hthrow.
    destruct (truthy matched) eqn:Hm; cbn [negb] in Hthrow.
    + exfalso. exact (check_is_not_NoResponse _ _ Hthrow Hclass).
    + split; [reflexivity|]. apply availableProviders_none.
      destruct (availableProviders data) as [|k rest] eqn:Hav; [reflexivity|].
      destruct (scan_returns_first k rest Hav) as [Hret _].
      rewrite Hret in Hthrow. discriminate Hthrow.
  - intros H Hall. unfold extract_generateText, scan_generateText.
    rewrite H. cbn [negb].
    rewrite (proj2 availableProviders_none Hall). reflexivity.
  - reflexivity.
  - reflexivity.
  - reflexivity.
  - reflexivity.
Qed.

(** C6.  When the entry matched under the exact or the base-name key
    carries the status [fail], extraction fails, and the failure is a
    [ProviderReportedError] whose message surfaces the provider's own:
    the text of [error.message] when that is a string, [Unknown error]
    when there is none, and in general the rendering of [error.message]
    as a string. *)
Theorem provider_failure_is_reported :
  is_string (opt_member matched "status") "fail" = true ->
  let reported := opt_member (opt_member matched "error") "message" in
  (exists e, extract_generateText provider data = Throws e)
  /\ (forall detail,
        ToString_val (or_else reported (Json (JStr "Unknown error"))) = Some detail ->
        extract_generateText provider data = Throws (ProviderError detail)
        /\ classify (ProviderError detail) = Some ProviderReportedError
        /\ message (ProviderError detail) = ("Provider error: " ++ detail)%string)
  /\ (forall m,
        reported = Json (JStr m) -> m <> ""%string ->
        extract_generateText provider data = Throws (ProviderError m))
  /\ (truthy reported = false ->
      extract_generateText provider data = Throws (ProviderError "Unknown error")).
Proof.
  intros Hfail reported.
  assert (Htruthy : truthy matched = true).
  { destruct matched as [|[]|[]]; try discriminate Hfail; reflexivity. }
  assert (Hrun : extract_generateText provider data
                 = match ToString_val (or_else reported (Json (JStr "Unknown error"))) with
                   | Some detail => Throws (ProviderError detail)
                   | None => Throws (TypeError "Cannot convert object to primitive value")
                   end).
  { unfold extract_generateText. rewrite Htruthy. cbn [negb].
    unfold check_providerResponse.
    rewrite !(member_truthy _ _ Htruthy). cbn [bind_pure].
    rewrite Hfail. reflexivity. }
  repeat apply conj.
  - rewrite Hrun. destruct (ToString_val _); eexists; reflexivity.
  - intros detail Hdetail. rewrite Hrun, Hdetail. repeat split.
  - intros m Hm Hne. rewrite Hrun, Hm. unfold or_else. cbn [truthy json_truthy].
    destruct (String.eqb_spec m ""); [contradiction|]. reflexivity.
  - intros Hm. rewrite Hrun. unfold or_else. rewrite Hm. reflexivity.
Qed.

(** C9.  When no entry is matched and the scan finds one that exposes
    text, that text is returned as it is.  Neither check of the matched
    path applies: the entry may carry the status [fail], which the checks
    would have reported, and its text may be blank, which the checks would
    have refused. *)
Theorem scanned_entry_bypasses_checks (k : string) (rest : list string) :
  truthy matched = false ->
  availableProviders data = k :: rest ->
  let scanned := data_get data k in
  let found := opt_member scanned "generated_text" in
  extract_generateText provider data = Returns found
  /\ truthy found = true
  /\ (is_string (opt_member scanned "status") "fail" = true ->
      exists e, check_providerResponse scanned = Throws e)
  /\ (forall s,
        found = Json (JStr s) ->
        Js.trim s = ""%string ->
        is_string (opt_member scanned "status") "fail" = false ->
        truthy (opt_member scanned "error") = false ->
        check_providerResponse scanned = Throws EmptyResponse).
Proof.
  intros Hmiss Hav scanned found.
  destruct (scan_returns_first k rest Hav) as [Hret Hk].
  assert (Hholder : forall name,
             member scanned name = Returns (opt_member scanned name))
    by (intros name; apply (member_of_holder _ "generated_text"); exact Hk).
  repeat apply conj.
  - unfold extract_generateText. rewrite Hmiss. exact Hret.
  - exact Hk.
  - intros Hfail. unfold check_providerResponse.
    rewrite !Hholder. cbn [bind_pure]. rewrite Hfail. cbn [orb].
    destruct (ToString_val _); eexists; reflexivity.
  - intros s Hs Hblank Hstatus Herr. unfold check_providerResponse.
    rewrite !Hholder. cbn [bind_pure]. rewrite Hstatus, Herr. cbn [orb].
    unfold exposes_text in Hk. fold scanned in Hk. fold found in Hk.
    unfold or_else. fold found. rewrite Hk. cbv beta iota.
    rewrite Hk. cbn [negb]. rewrite Hs, Hblank.
    rewrite (log_of_holder scanned "generated_text" Hk). reflexivity.
Qed.

End Extraction.

(** ** JSON post-processing *)

Lemma through_last_none (closer : ascii) (s : string) :
  through_last closer s = None -> occurs closer s = false.
Proof.
  induction s as [|c s IH]; [reflexivity|].
  cbn [through_last occurs].
  destruct (through_last closer s); [discriminate|].
  destruct (Ascii.eqb c closer); [discriminate|].
  intros _. apply IH. reflexivity.
Qed.

Lemma through_last_some (closer : ascii) (s t : string) :
  through_last closer s = Some t ->
  exists body post,
    t = (body ++ String closer EmptyString)%string
    /\ s = (t ++ post)%string
    /\ occurs closer post = false.
Proof.
  revert t. induction s as [|c s IH]; intros t; [discriminate|].
  cbn [through_last].
  destruct (through_last closer s) as [t'|] eqn:Ht'.
  - intros H. injection H as <-.
    destruct (IH t' eq_refl) as (body & post & -> & -> & Hpost).
    exists (String c body), post. repeat split. exact Hpost.
  - destruct (Ascii.eqb_spec c closer) as [->|]; [|discriminate].
    intros H. injection H as <-.
    exists EmptyString, s. repeat split.
    apply through_last_none, Ht'.
Qed.

Lemma is_opener_cases (c : ascii) :
  is_opener c = true -> c = "{"%char \/ c = "["%char.
Proof.
  unfold is_opener.
  destruct (Ascii.eqb_spec c "{"); [left; assumption|].
  destruct (Ascii.eqb_spec c "["); [right; assumption|discriminate].
Qed.

(** The match is the greedy span. *)
Lemma jsonMatch_greedy (s m : string) :
  jsonMatch s = Some m -> greedy_span s m.
Proof.
  revert m. induction s as [|c s IH]; intros m; [discriminate|].
  cbn [jsonMatch].
  set (here := if Ascii.eqb c "{" then option_map (String c) (through_last "}" s)
               else if Ascii.eqb c "[" then option_map (String c) (through_last "]" s)
               else None).
  destruct here as [m'|] eqn:Hhere.
  - intros H. injection H as <-. subst here.
    assert (Hsome : is_opener c = true
                    /\ exists t, through_last (closer_of c) s = Some t
                                 /\ m' = String c t).
    { unfold is_opener, closer_of.
      destruct (Ascii.eqb c "{") eqn:E1; cbn [orb].
      - destruct (through_last "}" s) as [t|]; [|discriminate].
        injection Hhere as <-. split; [reflexivity|]. exists t. split; reflexivity.
      - destruct (Ascii.eqb c "[") eqn:E2; [|discriminate].
        destruct (through_last "]" s) as [t|]; [|discriminate].
        injection Hhere as <-. split; [reflexivity|]. exists t. split; reflexivity. }
    destruct Hsome as (Hop & t & Ht & ->).
    destruct (through_last_some _ _ _ Ht) as (body & post & -> & -> & Hpost).
    exists EmptyString, post, body, c. repeat split; try assumption.
    intros [|x pre1] c0 pre2 Hpre; discriminate Hpre.
  - intros Hm.
    destruct (IH m Hm) as (pre & post & body & o & Hs & Ho & Hbody & Hpost & Hleft).
    exists (String c pre), post, body, o. repeat split; try assumption.
    + cbn [append]. f_equal. exact Hs.
    + intros [|x pre1] c0 pre2 Hpre Hc0.
      * cbn in Hpre. injection Hpre as <- <-. rewrite <- Hs.
        subst here. unfold closer_of.
        destruct (is_opener_cases _ Hc0) as [->| ->]; cbn in Hhere |- *.
        -- destruct (through_last "}" s) eqn:Hnone; [discriminate|].
           apply through_last_none, Hnone.
        -- destruct (through_last "]" s) eqn:Hnone; [discriminate|].
           apply through_last_none, Hnone.
      * cbn in Hpre. injection Hpre as <- ->.
        apply (Hleft pre1 c0 pre2 eq_refl Hc0).
Qed.

Section Parsing.

Variable JSON_parse : string -> option json.

Local Abbreviation parseJSONResponse' := (parseJSONResponse JSON_parse).

(** The control flow of [parseJSONResponse] on a text that is not blank. *)
Lemma parseJSONResponse_run (response : string) (w : world) :
  String.eqb response "" || (String.length (Js.trim response) =? 0)%nat = false ->
  let cleaned := select_span (strip_fences response) in
  let fixed := fix_commas cleaned in
  parseJSONResponse' response w
  = match JSON_parse cleaned with
    | Some v => (Returns v, w ++ [Parsed cleaned])
    | None =>
        match JSON_parse fixed with
        | Some v => (Returns v, w ++ [Parsed cleaned; Parsed fixed])
        | None => (Throws InvalidJSON, w ++ [Parsed cleaned; Parsed fixed])
        end
    end.
Proof.
  intros Hblank cleaned fixed. unfold parseJSONResponse. rewrite Hblank.
  fold cleaned. fold fixed.
  unfold try_catch, parse_call, bind, emit, ret, throw.
  destruct (JSON_parse cleaned); [reflexivity|].
  rewrite <- app_assoc.
  destruct (JSON_parse fixed); reflexivity.
Qed.

(** C7, as amended.  A blank text fails with [EmptyInputError] before any
    parse.  Otherwise the code-fence markers are removed and the text is
    narrowed to the greedy span: from the leftmost opening brace or
    bracket that has a closer of its kind to its right, through the last
    such closer, whether or not the brackets in between balance.  That
    span is parsed once; if the parse fails, one pass deletes the commas
    that stand before a closing brace or bracket and the result is parsed
    once more; [MalformedJsonError] is raised only when both parses fail.
    On the fenced example the second parse is the one that succeeds. *)
Theorem parseJSONResponse_behaviour (response : string) (w : world) :
  let blank :=
    String.eqb response "" || (String.length (Js.trim response) =? 0)%nat in
  let stripped := strip_fences response in
  let cleaned := select_span stripped in
  let fixed := fix_commas cleaned in
  (blank = true -> parseJSONResponse' response w = (Throws EmptyInput, w))
  /\ (blank = false ->
      forall v, JSON_parse cleaned = Some v ->
      parseJSONResponse' response w = (Returns v, w ++ [Parsed cleaned]))
  /\ (blank = false -> JSON_parse cleaned = None ->
      forall v, JSON_parse fixed = Some v ->
      parseJSONResponse' response w
      = (Returns v, w ++ [Parsed cleaned; Parsed fixed]))
  /\ (blank = false -> JSON_parse cleaned = None -> JSON_parse fixed = None ->
      parseJSONResponse' response w
      = (Throws InvalidJSON, w ++ [Parsed cleaned; Parsed fixed]))
  /\ (forall e w',
        parseJSONResponse' response w = (Throws e, w') ->
        classify e = Some MalformedJsonError ->
        JSON_parse cleaned = None /\ JSON_parse fixed = None)
  /\ (forall m, jsonMatch stripped = Some m -> cleaned = m /\ greedy_span stripped m)
  /\ (jsonMatch stripped = None -> cleaned = stripped)
  /\ (JSON_parse Sample.with_trailing_comma = None ->
      forall v, JSON_parse Sample.repaired = Some v ->
      parseJSONResponse' Sample.fenced w
      = (Returns v, w ++ [Parsed Sample.with_trailing_comma; Parsed Sample.repaired])).
Proof.
  intros blank stripped cleaned fixed.
  repeat apply conj.
  - intros Hblank. unfold parseJSONResponse. fold blank. rewrite Hblank. reflexivity.
  - intros Hblank v Hv.
    rewrite (parseJSONResponse_run response w Hblank). fold stripped cleaned.
    rewrite Hv. reflexivity.
  - intros Hblank Hbad v Hv.
    rewrite (parseJSONResponse_run response w Hblank). fold stripped cleaned fixed.
    rewrite Hbad, Hv. reflexivity.
  - intros Hblank Hbad Hbad'.
    rewrite (parseJSONResponse_run response w Hblank). fold stripped cleaned fixed.
    rewrite Hbad, Hbad'. reflexivity.
  - intros e w' Hthrow Hclass.
    destruct blank eqn:Hblank.
    + unfold parseJSONResponse in Hthrow. fold blank in Hthrow.
      rewrite Hblank in Hthrow. injection Hthrow as <- _. discriminate Hclass.
    + rewrite (parseJSONResponse_run response w Hblank) in Hthrow.
      fold stripped cleaned fixed in Hthrow.
      destruct (JSON_parse cleaned); [discriminate Hthrow|].
      destruct (JSON_parse fixed); [discriminate Hthrow|].
      split; reflexivity.
  - intros m Hm. split.
    + unfold cleaned, select_span. rewrite Hm. reflexivity.
    + apply jsonMatch_greedy, Hm.
  - intros Hm. unfold cleaned, select_span. rewrite Hm. reflexivity.
  - intros Hbad v Hv.
    rewrite (parseJSONResponse_run Sample.fenced w eq_refl).
    change (select_span (strip_fences Sample.fenced))
      with Sample.with_trailing_comma.
    change (fix_commas Sample.with_trailing_comma) with Sample.repaired.
    rewrite Hbad, Hv. reflexivity.
Qed.

End Parsing.

(** * Concrete runs *)

(** C4.  The invariant fails on two paths.  [chat] returns the empty
    string as a success when the matched entry has no text, and the scan
    of [generateText] returns blank text, which [generateTextWithRetry]
    passes on without a retry; on the matched path of [generateText] the
    same empty text is an [EmptyResponseError]. *)
Theorem empty_text_returned_as_success :
  fst (chat Sample.key (Sample.always (Sample.answer DEFAULT_PROVIDER ""))
         Sample.hello Sample.no_options [])
  = Returns (Json (JStr ""))
  /\ fst (generateText Sample.key (Sample.always Sample.blank_elsewhere)
            "prompt" Sample.no_options [])
     = Returns (Json (JStr "   "))
  /\ Js.trim "   " = ""%string
  /\ option_map (fun r => (fst r, List.length (fetches (snd r))))
       (generateTextWithRetry Sample.key (Sample.always Sample.blank_elsewhere)
          4 "prompt" Sample.no_options [])
     = Some (Returns (Json (JStr "   ")), 1%nat)
  /\ fst (generateText Sample.key (Sample.always (Sample.answer DEFAULT_PROVIDER ""))
            "prompt" Sample.no_options [])
     = Throws EmptyResponse.
Proof. repeat split. Qed.

Lemma first_attempt_success_witness :
  generateTextWithRetry Sample.key (Sample.recovering 0) 4 "prompt"
    Sample.no_options []
  = Some (Returns (Json (JStr "done")),
          [Invoked DEFAULT_PROVIDER;
           Fetched (generateText_body "prompt" Sample.no_options)]).
Proof.
  apply (first_attempt_success Sample.key (Sample.recovering 0) 4 "prompt"
           Sample.no_options []).
  - cbn. lia.
  - cbn. lia.
  - reflexivity.
Defined.

Lemma last_attempt_success_witness :
  exists d,
    generateTextWithRetry Sample.key (Sample.recovering 2) 4 "prompt"
      Sample.no_options []
    = Some (Returns (Json (JStr "done")), d)
    /\ sleeps d = [1000; 2000]%Z
    /\ total (sleeps d) = 3000%Z.
Proof.
  destruct (last_attempt_success Sample.key (Sample.recovering 2) 4 "prompt"
              Sample.no_options [] (fun _ => ApiError 503 "unavailable")
              (Json (JStr "done")))
    as (d & Hrun & Hsleeps & _ & _ & Htotal & _).
  - cbn. lia.
  - cbn. lia.
  - intros k Hk. cbn in Hk.
    destruct k as [|[|k]]; [reflexivity|reflexivity|lia].
  - reflexivity.
  - exists d. repeat split.
    + exact Hrun.
    + exact Hsleeps.
    + exact Htotal.
Defined.

Lemma fallback_after_exhaustion_witness :
  exists d,
    generateTextWithRetry Sample.key Sample.both_down 4 "prompt"
      Sample.no_options []
    = Some (Throws (ApiError 503 "unavailable"), d)
    /\ invocations d
       = [DEFAULT_PROVIDER; DEFAULT_PROVIDER; DEFAULT_PROVIDER; FALLBACK_PROVIDER].
Proof.
  destruct (fallback_after_exhaustion Sample.key Sample.both_down 4 "prompt"
              Sample.no_options [] (fun _ => ApiError 503 "unavailable"))
    as (d & final & Hrun & Hinv & _ & _ & Hfail).
  - cbn. lia.
  - intros k _. reflexivity.
  - reflexivity.
  - exists d. split.
    + rewrite Hrun.
      rewrite (Hfail (ApiError 429 "fallback refused") eq_refl).
      reflexivity.
    + exact Hinv.
Defined.

Lemma no_primary_attempt_without_retries_witness :
  generateTextWithRetry Sample.key Sample.primary_down 1 "prompt"
    (Sample.with_maxRetries 0) []
  = Some (Returns (Json (JStr "from the fallback")),
          [Invoked FALLBACK_PROVIDER;
           Fetched (generateText_body "prompt"
                      (fallbackOptions (Sample.with_maxRetries 0)))]).
Proof.
  destruct (proj1 (no_primary_attempt_without_retries Sample.key
                     Sample.primary_down 1 "prompt" (Sample.with_maxRetries 0) []
                     ltac:(cbn; lia) ltac:(lia)) eq_refl)
    as (final & Hrun & _ & Hok & _).
  rewrite Hrun, (Hok (Json (JStr "from the fallback")) eq_refl). reflexivity.
Defined.

(** C5: the claim as stated fails.  A missing provider entry is retried
    like any other failure: with three attempts allowed, three calls are
    made. *)
Lemma missing_entry_is_retried :
  ~ terminal_class NoProviderResponseError.
Proof.
  intros Hterminal.
  destruct (Hterminal Sample.key (Sample.always []) 4%nat "prompt"%string
              Sample.gemini_options []
              (NoResponse "google/gemini-1.5-pro" (Some [])))
    as (d & Hrun & Hlen).
  - cbn. lia.
  - cbn. lia.
  - reflexivity.
  - reflexivity.
  - vm_compute in Hrun. injection Hrun as <-. discriminate Hlen.
Qed.

Lemma every_failure_is_retried_witness :
  exists d final,
    generateTextWithRetry Sample.key (Sample.always []) 4 "prompt"
      Sample.gemini_options []
    = Some (final, d)
    /\ firstn 3 (invocations d)
       = ["google/gemini-1.5-pro"; "google/gemini-1.5-pro";
          "google/gemini-1.5-pro"]%string
    /\ sleeps d = [1000; 2000]%Z
    /\ classify (NoResponse "google/gemini-1.5-pro" (Some []))
       = Some NoProviderResponseError.
Proof.
  destruct (proj1 (every_failure_is_retried Sample.key (Sample.always []) 4
                     "prompt" Sample.gemini_options []
                     (fun _ => NoResponse "google/gemini-1.5-pro" (Some []))
                     ltac:(cbn; lia) ltac:(intros k _; reflexivity)))
    as (d & final & Hrun & Hinv & Hsleeps).
  exists d, final. repeat split.
  - exact Hrun.
  - exact Hinv.
  - exact Hsleeps.
Defined.

Lemma extraction_resolution_witness :
  lookup_providerResponse (Sample.answer "openai" "hi") "openai/gpt-4o-mini"
  = Json (JObj [("generated_text"%string, JStr "hi")])
  /\ extract_generateText "openai/gpt-4o-mini" (Sample.answer "openai" "hi")
     = Returns (Json (JStr "hi")).
Proof.
  pose proof (extraction_resolution "openai/gpt-4o-mini"
                (Sample.answer "openai" "hi"))
    as (_ & Hbase & _ & Hcheck & _).
  split.
  - rewrite (Hbase eq_refl eq_refl). reflexivity.
  - rewrite (Hcheck eq_refl). reflexivity.
Defined.

Lemma provider_failure_is_reported_witness :
  extract_generateText "openai/gpt-4o-mini" Sample.quota_exceeded
  = Throws (ProviderError "quota exceeded")
  /\ message (ProviderError "quota exceeded")
     = "Provider error: quota exceeded"%string.
Proof.
  pose proof (provider_failure_is_reported "openai/gpt-4o-mini"
                Sample.quota_exceeded eq_refl)
    as (_ & Hdetail & _).
  destruct (Hdetail "quota exceeded"%string eq_refl) as (Hthrow & _ & Hmessage).
  split; [exact Hthrow|exact Hmessage].
Defined.

Lemma scanned_entry_bypasses_checks_witness :
  extract_generateText "openai/gpt-4o-mini" Sample.failed_with_text
  = Returns (Json (JStr "partial"))
  /\ extract_generateText "openai/gpt-4o-mini" Sample.blank_elsewhere
     = Returns (Json (JStr "   ")).
Proof.
  split.
  - exact (proj1 (scanned_entry_bypasses_checks "openai/gpt-4o-mini"
                    Sample.failed_with_text "mistral/small" [] eq_refl eq_refl)).
  - exact (proj1 (scanned_entry_bypasses_checks "openai/gpt-4o-mini"
                    Sample.blank_elsewhere "mistral/small" [] eq_refl eq_refl)).
Defined.

(** C7: the claim as stated fails.  The span handed to the parser is the
    greedy one, not the first balanced one: of two objects in a text it
    takes both with what lies between, and the parse fails although the
    first balanced span is a valid document; and the span it takes need
    not balance at all. *)
Lemma greedy_span_is_not_the_balanced_span :
  jsonMatch Sample.two_objects = Some Sample.two_objects
  /\ first_balanced_span Sample.two_objects = Some Sample.first_object
  /\ Fragment.parse Sample.first_object = Some (JObj [("a"%string, JNum "1")])
  /\ parseJSONResponse Fragment.parse Sample.two_objects []
     = (Throws InvalidJSON,
        [Parsed Sample.two_objects; Parsed Sample.two_objects])
  /\ jsonMatch "{{}" = Some "{{}"%string
  /\ balanced "{{}" = false.
Proof. repeat split. Qed.

Lemma parseJSONResponse_behaviour_witness :
  parseJSONResponse Fragment.parse Sample.fenced []
  = (Returns (JObj [("a"%string, JNum "1")]),
     [Parsed Sample.with_trailing_comma; Parsed Sample.repaired]).
Proof.
  pose proof (parseJSONResponse_behaviour Fragment.parse Sample.fenced [])
    as (_ & _ & _ & _ & _ & _ & _ & Hexample).
  exact (Hexample eq_refl _ eq_refl).
Defined.

(** * Further properties *)

(** ** White space *)

Lemma trimEnd_empty (s : string) :
  Js.trimEnd s = EmptyString <-> all_whitespace s = true.
Proof.
  induction s as [|c s IH]; [split; reflexivity|].
  cbn [Js.trimEnd all_whitespace].
  destruct (Js.trimEnd s) as [|c' t] eqn:Ht.
  - destruct (Js.is_whitespace c); cbn [andb].
    + split; intros _; [apply IH|]; reflexivity.
    + split; discriminate.
  - split; [discriminate|].
    intros H. apply andb_true_iff in H. destruct H as [_ H].
    apply IH in H. discriminate H.
Qed.

Lemma all_whitespace_trimStart (s : string) :
  all_whitespace (Js.trimStart s) = all_whitespace s.
Proof.
  induction s as [|c s IH]; [reflexivity|].
  cbn [Js.trimStart]. destruct (Js.is_whitespace c) eqn:Hc.
  - rewrite IH. cbn [all_whitespace]. rewrite Hc. reflexivity.
  - reflexivity.
Qed.

(** [s.trim().length === 0] holds exactly of the strings made of white
    space. *)
Lemma trim_blank (s : string) :
  (String.length (Js.trim s) =? 0)%nat = all_whitespace s.
Proof.
  unfold Js.trim. rewrite <- (all_whitespace_trimStart s).
  destruct (all_whitespace (Js.trimStart s)) eqn:Hw.
  - apply trimEnd_empty in Hw. rewrite Hw. reflexivity.
  - destruct (Js.trimEnd (Js.trimStart s)) eqn:Ht; [|reflexivity].
    apply trimEnd_empty in Ht. congruence.
Qed.

(** ** What extraction returns *)

Lemma member_returns (v a : jsval) (name : string) :
  member v name = Returns a ->
  a = opt_member v name
  /\ forall name', member v name' = Returns (opt_member v name').
Proof.
  unfold member. destruct v as [|[]|[]]; intros H; try discriminate H;
    injection H as <-; split; reflexivity.
Qed.

(** The checks let through only a text that is not blank, from an entry
    that reports no failure. *)
Lemma check_providerResponse_returns (v x : jsval) :
  check_providerResponse v = Returns x ->
  exists s,
    x = Json (JStr s)
    /\ all_whitespace s = false
    /\ opt_member v "generated_text" = Json (JStr s)
    /\ is_string (opt_member v "status") "fail" = false
    /\ truthy (opt_member v "error") = false.
Proof.
  unfold check_providerResponse. intros H.
  destruct (member v "status") as [st|] eqn:Est; [|discriminate H].
  destruct (member_returns _ _ _ Est) as [-> Hmember].
  rewrite !Hmember in H. cbn [bind_pure] in H.
  destruct (is_string (opt_member v "status") "fail") eqn:Hst; cbn [orb] in H.
  { destruct (ToString_val _); discriminate H. }
  destruct (truthy (opt_member v "error")) eqn:Herr.
  { destruct (ToString_val _); discriminate H. }
  unfold or_else in H.
  destruct (truthy (opt_member v "generated_text")) eqn:Ht.
  - rewrite Ht in H. cbn [negb] in H.
    destruct (opt_member v "generated_text") as [|[| | |s| |]|] eqn:Hg;
      try discriminate H.
    rewrite trim_blank in H.
    destruct (all_whitespace s) eqn:Hw.
    + destruct (log_providerResponse v); discriminate H.
    + injection H as <-. exists s. repeat split; assumption.
  - cbn in H. destruct (log_providerResponse v); discriminate H.
Qed.

(** A success of the extraction is truthy. *)
Lemma extract_generateText_truthy (provider : string) (data : object)
    (v : jsval) :
  extract_generateText provider data = Returns v -> truthy v = true.
Proof.
  unfold extract_generateText. intros H.
  destruct (truthy (lookup_providerResponse data provider)); cbn [negb] in H.
  - destruct (check_providerResponse_returns _ _ H) as (s & -> & Hw & _).
    cbn. destruct (String.eqb_spec s ""); [subst s; discriminate Hw|reflexivity].
  - unfold scan_generateText in H.
    destruct (availableProviders data) as [|k rest] eqn:Hav; [discriminate H|].
    destruct (scan_returns_first provider data k rest Hav) as [Hret Hk].
    unfold scan_generateText in Hret. rewrite Hav in Hret.
    rewrite Hret in H. injection H as <-. exact Hk.
Qed.

(** X2.  Whatever [generateText] extracts as a success is truthy: never
    the empty string, never [undefined].  When the entry was matched
    under the exact or the base-name key, it is a string with a character
    that is not white space, taken from an entry without failure status
    and without error payload. *)
Theorem extracted_text_is_never_empty (provider : string) (data : object)
    (v : jsval) :
  extract_generateText provider data = Returns v ->
  truthy v = true
  /\ v <> Json (JStr "")
  /\ (truthy (lookup_providerResponse data provider) = true ->
      exists s,
        v = Json (JStr s)
        /\ all_whitespace s = false
        /\ is_string (opt_member (lookup_providerResponse data provider) "status")
                     "fail" = false
        /\ truthy (opt_member (lookup_providerResponse data provider) "error")
           = false).
Proof.
  intros H. pose proof (extract_generateText_truthy _ _ _ H) as Ht.
  repeat split.
  - exact Ht.
  - intros ->. discriminate Ht.
  - intros Hm. unfold extract_generateText in H. rewrite Hm in H. cbn [negb] in H.
    destruct (check_providerResponse_returns _ _ H)
      as (s & -> & Hw & _ & Hst & Herr).
    exists s. repeat split; assumption.
Qed.

Lemma extracted_text_is_never_empty_witness :
  truthy (Json (JStr "hi")) = true
  /\ Json (JStr "hi") <> Json (JStr "").
Proof.
  destruct (extracted_text_is_never_empty "openai/gpt-4o-mini"
              (Sample.answer "openai" "hi") (Json (JStr "hi")) eq_refl)
    as (Ht & Hne & _).
  split; assumption.
Defined.

(** X3.  An error payload is a failure by itself.  When the matched
    entry has a truthy [error] field, extraction fails whatever the status
    and whatever text the entry carries: with the provider error that
    renders [error.message], or [Unknown error] when the payload has no
    message, as when the payload is a bare string. *)
Theorem error_payload_is_a_failure (provider : string) (data : object) :
  let matched := lookup_providerResponse data provider in
  let reported := opt_member (opt_member matched "error") "message" in
  truthy (opt_member matched "error") = true ->
  (exists e, extract_generateText provider data = Throws e)
  /\ (forall detail,
        ToString_val (or_else reported (Json (JStr "Unknown error"))) = Some detail ->
        extract_generateText provider data = Throws (ProviderError detail))
  /\ (forall m,
        reported = Json (JStr m) -> m <> ""%string ->
        extract_generateText provider data = Throws (ProviderError m))
  /\ (truthy reported = false ->
      extract_generateText provider data = Throws (ProviderError "Unknown error")).
Proof.
  intros matched reported Herr.
  assert (Htruthy : truthy matched = true).
  { destruct matched as [|[]|[]]; try discriminate Herr; reflexivity. }
  assert (Hrun : extract_generateText provider data
                 = match ToString_val (or_else reported (Json (JStr "Unknown error"))) with
                   | Some detail => Throws (ProviderError detail)
                   | None => Throws (TypeError "Cannot convert object to primitive value")
                   end).
  { unfold extract_generateText. fold matched. rewrite Htruthy. cbn [negb].
    unfold check_providerResponse.
    rewrite !(member_truthy _ _ Htruthy). cbn [bind_pure].
    rewrite Herr, orb_true_r. reflexivity. }
  repeat apply conj.
  - rewrite Hrun. destruct (ToString_val _); eexists; reflexivity.
  - intros detail Hdetail. rewrite Hrun, Hdetail. reflexivity.
  - intros m Hm Hne. rewrite Hrun, Hm. unfold or_else. cbn [truthy json_truthy].
    destruct (String.eqb_spec m ""); [contradiction|]. reflexivity.
  - intros Hm. rewrite Hrun. unfold or_else. rewrite Hm. reflexivity.
Qed.

Lemma error_payload_is_a_failure_witness :
  extract_generateText "openai/gpt-4o-mini" Scenario.text_and_error
  = Throws (ProviderError "stream interrupted").
Proof.
  pose proof (error_payload_is_a_failure "openai/gpt-4o-mini"
                Scenario.text_and_error eq_refl)
    as (_ & _ & Hmessage & _).
  apply (Hmessage "stream interrupted"%string eq_refl).
  discriminate.
Defined.

(** ** Extraction in [chat] *)

(** X4.  The extraction of [chat] has one failure only: it throws when
    no entry is matched and no key exposes text, and then with the
    missing-provider error.  A matched entry is never refused: its text is
    returned, or the empty string when it has none, whatever status or
    error it reports. *)
Theorem chat_extraction_outcomes (provider : string) (data : object) :
  let matched := lookup_providerResponse data provider in
  (truthy matched = true ->
   extract_chat provider data
   = Returns (or_else (opt_member matched "generated_text") (Json (JStr ""))))
  /\ (forall e,
        extract_chat provider data = Throws e <->
        e = NoResponse provider None
        /\ truthy matched = false
        /\ forall k, In k (keys data) -> exposes_text data k = false).
Proof.
  intros matched. split.
  - intros Hm. unfold extract_chat. fold matched. rewrite Hm. cbn [negb].
    rewrite (member_truthy _ _ Hm). reflexivity.
  - intros e. unfold extract_chat. fold matched.
    destruct (truthy matched) eqn:Hm; cbn [negb].
    + rewrite (member_truthy _ _ Hm). cbn [bind_pure].
      split; [discriminate|]. intros (_ & Hfalse & _). discriminate Hfalse.
    + destruct (availableProviders data) as [|k rest] eqn:Hav.
      * split.
        -- intros H. injection H as <-. repeat split.
           apply availableProviders_none, Hav.
        -- intros (-> & _ & _). reflexivity.
      * destruct (scan_returns_first provider data k rest Hav) as [_ Hk].
        unfold exposes_text in Hk.
        rewrite (member_of_holder _ "generated_text" "generated_text" Hk).
        cbn [bind_pure]. split; [discriminate|].
        intros (_ & _ & Hnone).
        assert (Hin : In k (keys data)).
        { assert (Hin' : In k (availableProviders data))
            by (rewrite Hav; left; reflexivity).
          unfold availableProviders in Hin'. apply filter_In in Hin'. apply Hin'. }
        specialize (Hnone k Hin). unfold exposes_text in Hnone. congruence.
Qed.

Lemma chat_extraction_outcomes_witness :
  extract_chat "openai/gpt-4o-mini" Sample.quota_exceeded = Returns (Json (JStr "")).
Proof.
  exact (proj1 (chat_extraction_outcomes "openai/gpt-4o-mini"
                  Sample.quota_exceeded) eq_refl).
Defined.

(** X5.  [chat] agrees with [generateText] wherever [generateText]
    succeeds: on the same body and provider it returns the same value. *)
Theorem chat_agrees_with_generateText (provider : string) (data : object)
    (v : jsval) :
  extract_generateText provider data = Returns v ->
  extract_chat provider data = Returns v.
Proof.
  unfold extract_generateText, extract_chat, scan_generateText.
  destruct (truthy (lookup_providerResponse data provider)) eqn:Hm;
    cbn [negb].
  - intros H.
    destruct (check_providerResponse_returns _ _ H) as (s & -> & Hw & Hg & _).
    rewrite (member_truthy _ _ Hm), Hg. cbn [bind_pure]. unfold or_else.
    cbn [truthy json_truthy].
    destruct (String.eqb_spec s ""); [subst s; discriminate Hw|reflexivity].
  - destruct (availableProviders data); intros H; [discriminate H|exact H].
Qed.

Lemma chat_agrees_with_generateText_witness :
  extract_chat "openai/gpt-4o-mini" (Sample.answer "openai" "hi")
  = Returns (Json (JStr "hi")).
Proof.
  exact (chat_agrees_with_generateText "openai/gpt-4o-mini"
           (Sample.answer "openai" "hi") (Json (JStr "hi")) eq_refl).
Defined.

(** ** The request of [chat] *)

Section ChatRequest.

Variable EDENAI_API_KEY : option string.
Variable network : nat -> request -> http_outcome.

Local Abbreviation configured := (api_key_configured EDENAI_API_KEY).
Local Abbreviation chat' := (chat EDENAI_API_KEY network).

Local Abbreviation spoken :=
  (filter (fun m => negb (role_eqb (msg_role m) system))).

Lemma in_removelast {A} (x : A) (l : list A) :
  In x (removelast l) -> In x l.
Proof.
  induction l as [|a l IH]; [intros []|].
  cbn [removelast]. destruct l as [|b l]; [intros []|].
  intros [->|Hin]; [left; reflexivity|right; apply IH, Hin].
Qed.

Lemma last_message (earlier : list ChatMessage) (lastMessage : ChatMessage) :
  last (map Some (earlier ++ [lastMessage])) None = Some lastMessage.
Proof. rewrite map_app. apply last_last. Qed.

(** X6.  What [chat] sends for a conversation that ends with
    [lastMessage]: one request, whose text is the content of that message
    and whose history holds no system message.  When the last message is
    not a system message, the history is the earlier turns in order, so
    that history and text together carry every turn exactly once.  When
    it is a system message, the history loses the last turn before it. *)
Theorem chat_request (earlier : list ChatMessage) (lastMessage : ChatMessage)
    (opts : options) (w : world) :
  configured = true ->
  exists req,
    chat' (earlier ++ [lastMessage]) opts w
    = (respond extract_chat (with_default DEFAULT_PROVIDER (opt_provider opts))
         (network (fetch_count w) req),
       w ++ [Fetched req])
    /\ providers req = with_default DEFAULT_PROVIDER (opt_provider opts)
    /\ text req = content lastMessage
    /\ (forall turn, In turn (previous_history req) -> fst turn <> system)
    /\ (role_eqb (msg_role lastMessage) system = false ->
        previous_history req
        = map (fun m => (msg_role m, content m)) (spoken earlier)
        /\ map snd (previous_history req) ++ [text req]
           = map content (spoken (earlier ++ [lastMessage])))
    /\ (role_eqb (msg_role lastMessage) system = true ->
        previous_history req
        = map (fun m => (msg_role m, content m)) (removelast (spoken earlier))).
Proof.
  intros Hkey. unfold chat. rewrite Hkey. cbn [negb].
  rewrite last_message. unfold bind, fetch, lift.
  eexists. split; [reflexivity|]. cbn [providers text previous_history].
  repeat apply conj.
  - reflexivity.
  - reflexivity.
  - intros turn Hin. apply in_map_iff in Hin. destruct Hin as (m & <- & Hin).
    apply in_removelast in Hin. apply filter_In in Hin. destruct Hin as [_ Hm].
    cbn [fst]. intros Heq. rewrite Heq in Hm. discriminate Hm.
  - intros Hlast. rewrite filter_app. cbn [filter]. rewrite Hlast. cbn [negb].
    rewrite removelast_last. split; [reflexivity|].
    rewrite map_map, map_app. reflexivity.
  - intros Hlast. rewrite filter_app. cbn [filter]. rewrite Hlast. cbn [negb].
    rewrite app_nil_r. reflexivity.
Qed.

(** X7.  [chat] reaches the network exactly when the key is configured
    and the conversation is not empty.  Without a key it throws the
    configuration error, and on an empty conversation the [TypeError] of
    reading the last message, in both cases before any request. *)
Theorem chat_reaches_the_network (messages : list ChatMessage) (opts : options)
    (w : world) :
  (configured = false ->
   chat' messages opts w = (Throws ApiKeyNotConfigured, w))
  /\ (configured = true -> messages = [] ->
      chat' messages opts w
      = (Throws (TypeError "Cannot read properties of undefined"), w))
  /\ (configured = true -> messages <> [] ->
      exists req r,
        chat' messages opts w = (r, w ++ [Fetched req]))
  /\ (fetches (snd (chat' messages opts w)) = fetches w <->
      configured = false \/ messages = []).
Proof.
  assert (Hsome : configured = true -> messages <> [] ->
                  exists req r, chat' messages opts w = (r, w ++ [Fetched req])).
  { intros Hkey Hne.
    destruct (exists_last Hne) as (earlier & lastMessage & ->).
    destruct (chat_request earlier lastMessage opts w Hkey) as (req & Hrun & _).
    exists req. eexists. exact Hrun. }
  assert (Hnone1 : configured = false ->
                   chat' messages opts w = (Throws ApiKeyNotConfigured, w)).
  { intros Hkey. unfold chat. rewrite Hkey. reflexivity. }
  assert (Hnone2 : configured = true -> messages = [] ->
                   chat' messages opts w
                   = (Throws (TypeError "Cannot read properties of undefined"), w)).
  { intros Hkey ->. unfold chat. rewrite Hkey. reflexivity. }
  repeat apply conj; try assumption.
  - intros Hsame.
    destruct configured eqn:Hkey; [|left; reflexivity].
    destruct messages as [|m rest] eqn:Hm; [right; reflexivity|].
    exfalso.
    destruct (Hsome eq_refl ltac:(discriminate)) as (req & r & Hrun).
    rewrite Hrun in Hsame. cbn [snd] in Hsame.
    rewrite fetches_app in Hsame.
    apply (f_equal (@List.length request)) in Hsame.
    rewrite length_app in Hsame. cbn in Hsame. lia.
  - intros [Hkey| ->].
    + rewrite (Hnone1 Hkey). reflexivity.
    + destruct configured eqn:Hkey.
      * rewrite (Hnone2 eq_refl eq_refl). reflexivity.
      * rewrite (Hnone1 eq_refl). reflexivity.
Qed.

End ChatRequest.

Lemma chat_request_witness :
  exists req,
    snd (chat Sample.key (Sample.always []) Scenario.conversation
           Sample.no_options [])
    = [Fetched req]
    /\ text req = "second question"%string
    /\ previous_history req
       = [(user, "first question"%string); (assistant, "first answer"%string)].
Proof.
  destruct (chat_request Sample.key (Sample.always [])
              (removelast Scenario.conversation)
              {| msg_role := user; content := "second question" |}
              Sample.no_options [] eq_refl)
    as (req & Hrun & _ & Htext & _ & Hhistory & _).
  exists req. repeat split.
  - change Scenario.conversation
      with (removelast Scenario.conversation
            ++ [{| msg_role := user; content := "second question" |}]).
    rewrite Hrun. reflexivity.
  - exact Htext.
  - exact (proj1 (Hhistory eq_refl)).
Defined.

(** ** Runs of the retry controller *)

Section Runs.

Variable EDENAI_API_KEY : option string.
Variable network : nat -> request -> http_outcome.

Local Abbreviation configured := (api_key_configured EDENAI_API_KEY).
Local Abbreviation call_events' := (call_events EDENAI_API_KEY).
Local Abbreviation call_result' := (call_result EDENAI_API_KEY network).
Local Abbreviation failing_trace' := (failing_trace EDENAI_API_KEY).
Local Abbreviation exhausted_trace' := (exhausted_trace EDENAI_API_KEY).
Local Abbreviation retry_loop' := (retry_loop EDENAI_API_KEY network).
Local Abbreviation generateTextWithRetry' :=
  (generateTextWithRetry EDENAI_API_KEY network).

Lemma fetches_call_events (prompt : string) (opts : options) :
  fetches (call_events' prompt opts)
  = if configured then [generateText_body prompt opts] else [].
Proof. unfold call_events. destruct configured; reflexivity. Qed.

Lemma fetches_failing_trace (prompt : string) (opts : options) (j : nat) :
  forall delay,
    fetches (failing_trace' prompt opts j delay)
    = if configured then repeat (generateText_body prompt opts) j else [].
Proof.
  induction j as [|j IH]; intros delay.
  - destruct configured; reflexivity.
  - cbn [failing_trace].
    rewrite !fetches_app, fetches_call_events, IH.
    destruct configured; reflexivity.
Qed.


(** X1.  A success on attempt [j + 1], after [j] failures, ends the run
    there: the text of that attempt is returned, the calls made are the
    [j + 1] primary ones, and the waits are the first [j] of the backoff
    sequence. *)
Theorem success_after_failures (fuel : nat) (prompt : string) (opts : options)
    (w : world) (err : nat -> error) (text : jsval) (j : nat) :
  let n := Z.to_nat (maxRetries_of opts) in
  let go := generateOptions_of opts in
  (n < fuel)%nat ->
  (j < n)%nat ->
  (forall k, (k < j)%nat ->
             call_result' prompt go (fetch_count w + k) = Throws (err k)) ->
  call_result' prompt go (fetch_count w + j) = Returns text ->
  exists d,
    generateTextWithRetry' fuel prompt opts w = Some (Returns text, w ++ d)
    /\ invocations d
       = repeat (with_default DEFAULT_PROVIDER (opt_provider go)) (S j)
    /\ fetches d = repeat (generateText_body prompt go) (S j)
    /\ sleeps d = backoff_sequence j
    /\ total (sleeps d) = (baseDelay * (2 ^ Z.of_nat j - 1))%Z.
Proof.
  intros n go Hfuel Hj Hfail Hok.
  exists (failing_trace' prompt go j 1000 ++ call_events' prompt go).
  assert (Hs : sleeps (failing_trace' prompt go j 1000 ++ call_events' prompt go)
               = backoff_sequence j).
  { rewrite sleeps_app, sleeps_call_events, app_nil_r, sleeps_failing_trace.
    apply backoff_sequence_doubling. }
  assert (Hc : configured = true).
  { revert Hok. unfold call_result. destruct configured; [reflexivity|discriminate]. }
  repeat split.
  - unfold generateTextWithRetry. fold go.
    replace fuel with (j + S (fuel - S j))%nat by lia.
    rewrite (retry_loop_failing_prefix _ _ prompt go _ j _ err)
      by (try assumption; subst n; lia).
    rewrite (retry_loop_success _ _ _ _ _ _ _ _ _ _ text).
    + rewrite <- app_assoc. reflexivity.
    + subst n. lia.
    + rewrite call_result_after_failures. exact Hok.
  - rewrite invocations_app, invocations_call_events, invocations_failing_trace.
    symmetry. cbn [repeat]. apply repeat_cons.
  - rewrite fetches_app, fetches_call_events, fetches_failing_trace, Hc.
    symmetry. cbn [repeat]. apply repeat_cons.
  - exact Hs.
  - rewrite Hs. apply total_backoff_sequence.
Qed.

(** X8.  When every primary attempt fails and the provider in force is
    not of the openai family, no fallback call is made: the calls are the
    [maxRetries] primary ones, the waits the backoff sequence between
    them, and the error thrown is the one of the last attempt (the
    generic error when no attempt was made). *)
Theorem exhaustion_without_fallback (fuel : nat) (prompt : string)
    (opts : options) (w : world) (err : nat -> error) :
  let n := Z.to_nat (maxRetries_of opts) in
  let go := generateOptions_of opts in
  (n < fuel)%nat ->
  (forall k, (k < n)%nat ->
             call_result' prompt go (fetch_count w + k) = Throws (err k)) ->
  Js.includes (currentProvider_of go) "openai" = false ->
  exists d,
    generateTextWithRetry' fuel prompt opts w
    = Some (Throws (match n with O => FailedAfterRetries | S n' => err n' end),
            w ++ d)
    /\ invocations d
       = repeat (with_default DEFAULT_PROVIDER (opt_provider go)) n
    /\ sleeps d = backoff_sequence (n - 1).
Proof.
  intros n go Hfuel Hfail Hfamily.
  pose proof (exhausted_run _ _ fuel prompt opts w err Hfuel Hfail) as Hrun.
  fold n go in Hrun. rewrite after_retries_run, Hfamily in Hrun.
  exists (exhausted_trace' prompt go n). repeat split.
  - rewrite Hrun. destruct n; reflexivity.
  - apply invocations_exhausted_trace.
  - apply sleeps_exhausted_trace.
Qed.







End Runs.

Lemma success_after_failures_witness :
  exists d,
    generateTextWithRetry Sample.key Scenario.flaky 4 "prompt" Sample.no_options []
    = Some (Returns (Json (JStr "done")), d)
    /\ sleeps d = [1000%Z]
    /\ invocations d = [DEFAULT_PROVIDER; DEFAULT_PROVIDER].
Proof.
  destruct (success_after_failures Sample.key Scenario.flaky 4 "prompt"
              Sample.no_options [] (fun _ => ApiError 503 "unavailable")
              (Json (JStr "done")) 1)
    as (d & Hrun & Hinv & _ & Hsleeps & _).
  - cbn. lia.
  - cbn. lia.
  - intros k Hk. destruct k as [|k]; [reflexivity|lia].
  - reflexivity.
  - exists d. repeat split.
    + exact Hrun.
    + exact Hsleeps.
    + exact Hinv.
Defined.

Lemma exhaustion_without_fallback_witness :
  exists d,
    generateTextWithRetry Sample.key (Sample.always []) 4 "prompt"
      Sample.gemini_options []
    = Some (Throws (NoResponse "google/gemini-1.5-pro" (Some [])), d)
    /\ List.length (invocations d) = 3%nat
    /\ sleeps d = [1000; 2000]%Z.
Proof.
  destruct (exhaustion_without_fallback Sample.key (Sample.always []) 4 "prompt"
              Sample.gemini_options []
              (fun _ => NoResponse "google/gemini-1.5-pro" (Some [])))
    as (d & Hrun & Hinv & Hsleeps).
  - cbn. lia.
  - intros k _. reflexivity.
  - reflexivity.
  - exists d. repeat split.
    + exact Hrun.
    + rewrite Hinv. reflexivity.
    + exact Hsleeps.
Defined.



Lemma chat_reaches_the_network_witness :
  chat None (Sample.always []) Scenario.conversation Sample.no_options []
  = (Throws ApiKeyNotConfigured, [])
  /\ chat Sample.key (Sample.always []) [] Sample.no_options []
     = (Throws (TypeError "Cannot read properties of undefined"), []).
Proof.
  split.
  - exact (proj1 (chat_reaches_the_network None (Sample.always [])
                    Scenario.conversation Sample.no_options []) eq_refl).
  - exact (proj1 (proj2 (chat_reaches_the_network Sample.key (Sample.always [])
                           [] Sample.no_options [])) eq_refl eq_refl).
Defined.

(** ** Substrings *)

Local Open Scope string_scope.

Lemma append_assoc (a b c : string) : (a ++ b) ++ c = a ++ b ++ c.
Proof. induction a as [|x a IH]; cbn; [reflexivity|]. rewrite IH. reflexivity. Qed.

Lemma append_nil_r (a : string) : a ++ "" = a.
Proof. induction a as [|x a IH]; cbn; [reflexivity|]. rewrite IH. reflexivity. Qed.

Lemma prefix_iff (p s : string) :
  String.prefix p s = true <-> exists post, s = p ++ post.
Proof.
  revert s. induction p as [|a p IH]; intros s.
  - destruct s; cbn; split; eauto.
  - destruct s as [|b s]; cbn.
    + split; [discriminate|]. intros (post & H). discriminate H.
    + destruct (ascii_dec a b) as [->|Hne].
      * rewrite IH. split; intros (post & H).
        -- exists post. rewrite H. reflexivity.
        -- exists post. injection H as H. exact H.
      * split; [discriminate|]. intros (post & H). injection H as H _.
        congruence.
Qed.

(** [s.includes(p)] holds exactly when [p] lies somewhere in [s]. *)
Lemma includes_iff (s p : string) :
  Js.includes s p = true <-> exists pre post, s = pre ++ p ++ post.
Proof.
  induction s as [|c s IH]; cbn [Js.includes].
  - rewrite orb_false_r, prefix_iff. split.
    + intros (post & H). exists "", post. exact H.
    + intros ([|x pre] & post & H); [|discriminate H].
      exists post. exact H.
  - rewrite orb_true_iff, prefix_iff, IH. split.
    + intros [(post & H)|(pre & post & H)].
      * exists "", post. exact H.
      * exists (String c pre), post. rewrite H. reflexivity.
    + intros ([|x pre] & post & H).
      * left. exists post. exact H.
      * right. injection H as _ H. exists pre, post. exact H.
Qed.

(** A part of a text includes nothing the text does not. *)
Lemma includes_part (a m b p : string) :
  Js.includes (a ++ m ++ b) p = false -> Js.includes m p = false.
Proof.
  intros H. destruct (Js.includes m p) eqn:Hm; [|reflexivity].
  apply includes_iff in Hm. destruct Hm as (pre & post & ->).
  assert (Hin : Js.includes (a ++ (pre ++ p ++ post) ++ b) p = true).
  { apply includes_iff. exists (a ++ pre), (post ++ b).
    rewrite !append_assoc. reflexivity. }
  congruence.
Qed.

Lemma trimStart_part (s : string) : exists a, s = a ++ Js.trimStart s.
Proof.
  induction s as [|c s (a & IH)]; [exists ""; reflexivity|].
  cbn [Js.trimStart]. destruct (Js.is_whitespace c).
  - exists (String c a). cbn. rewrite <- IH. reflexivity.
  - exists "". reflexivity.
Qed.

Lemma trimEnd_part (s : string) : exists b, s = Js.trimEnd s ++ b.
Proof.
  induction s as [|c s (b & IH)]; [exists ""; reflexivity|].
  cbn [Js.trimEnd]. destruct (Js.trimEnd s) as [|x t] eqn:Ht.
  - destruct (Js.is_whitespace c).
    + exists (String c s). reflexivity.
    + exists s. reflexivity.
  - exists b. cbn. rewrite IH. reflexivity.
Qed.

(** [s.trim()] is a part of [s]. *)
Lemma trim_part (s : string) : exists a b, s = a ++ Js.trim s ++ b.
Proof.
  unfold Js.trim.
  destruct (trimStart_part s) as (a & Ha).
  destruct (trimEnd_part (Js.trimStart s)) as (b & Hb).
  exists a, b. rewrite <- Hb. exact Ha.
Qed.

(** ** Code fences *)

Lemma starts_with_fence (s : string) :
  Js.starts_with Ascii.eqb "```" s = (3 <=? leading_backticks s)%nat.
Proof.
  destruct s as [|c1 [|c2 [|c3 s]]]; cbn [Js.starts_with leading_backticks];
    rewrite ?(Ascii.eqb_sym "`");
    repeat match goal with
           | |- context [Ascii.eqb ?c "`"] =>
               destruct (Ascii.eqb c "`"); cbn [andb]
           end; reflexivity.
Qed.

Lemma prefix_fence (s : string) :
  String.prefix "```" s = (3 <=? leading_backticks s)%nat.
Proof.
  rewrite <- starts_with_fence.
  destruct s as [|c1 [|c2 [|c3 s]]]; cbn [String.prefix Js.starts_with];
    repeat match goal with
           | |- context [ascii_dec "`" ?c] =>
               destruct (ascii_dec "`" c) as [<-|];
               [rewrite Ascii.eqb_refl
               |destruct (Ascii.eqb_spec "`" c); [contradiction|]];
               cbn [andb]
           end;
    try reflexivity.
  destruct s; reflexivity.
Qed.

(** Deleting the fences leaves none: what is left of a run of backticks
    is shorter than a fence. *)
Lemma remove_fences_spec :
  forall (n : nat) (s : string),
    (String.length s <= n)%nat ->
    (leading_backticks (Js.remove_all Ascii.eqb "```" s) <= leading_backticks s)%nat
    /\ Js.includes (Js.remove_all Ascii.eqb "```" s) "```" = false.
Proof.
  unfold Js.remove_all.
  induction n as [|n IH]; intros s Hlen.
  - destruct s; [split; reflexivity|cbn in Hlen; lia].
  - destruct s as [|c s]; [split; reflexivity|].
    cbn [Js.remove_all_from]. rewrite starts_with_fence.
    destruct (3 <=? leading_backticks (String c s))%nat eqn:H3.
    + apply Nat.leb_le in H3.
      destruct s as [|c2 [|c3 t]]; cbn [leading_backticks] in H3;
        repeat match type of H3 with
               | context [Ascii.eqb ?x "`"] => destruct (Ascii.eqb x "`") eqn:?
               end; try lia.
      cbn [String.length Nat.sub Js.remove_all_from].
      destruct (IH t) as [Hlead Hnone]; [cbn in Hlen; lia|].
      split; [|exact Hnone].
      cbn [leading_backticks].
      repeat match goal with H : Ascii.eqb _ _ = true |- _ => rewrite H; clear H end.
      lia.
    + apply Nat.leb_gt in H3.
      destruct (IH s) as [Hlead Hnone]; [cbn in Hlen; lia|].
      cbn [leading_backticks Js.includes] in *.
      rewrite prefix_fence, Hnone, orb_false_r. cbn [leading_backticks].
      destruct (Ascii.eqb c "`").
      * split; [lia|]. apply Nat.leb_gt. lia.
      * split; [lia|]. reflexivity.
Qed.

Lemma drop_part (n : nat) (s : string) : exists a, s = a ++ Fragment.drop n s.
Proof.
  revert s. induction n as [|n IH]; intros s.
  - exists "". destruct s; reflexivity.
  - destruct s as [|c s]; [exists ""; reflexivity|].
    destruct (IH s) as (a & Ha). exists (String c a).
    cbn. rewrite <- Ha. reflexivity.
Qed.

Lemma length_drop (n : nat) (s : string) :
  (String.length (Fragment.drop n s) <= String.length s)%nat.
Proof.
  revert s. induction n as [|n IH]; intros s.
  - destruct s; cbn; lia.
  - destruct s as [|c s]; cbn; [lia|]. specialize (IH s). lia.
Qed.

(** The characters a match of the repair skips are dropped as they are. *)
Lemma skipped_is_dropped (closer : ascii) (n : nat) (s : string) :
  drop_trailing_commas_from closer n s
  = drop_trailing_commas_from closer 0 (Fragment.drop n s).
Proof.
  revert s. induction n as [|n IH]; intros s.
  - destruct s; reflexivity.
  - destruct s as [|c s]; [reflexivity|]. cbn. apply IH.
Qed.

(** The repair pass brings no fence into a text. *)
Lemma drop_trailing_commas_spec (closer : ascii) :
  Ascii.eqb closer "`" = false ->
  forall (n : nat) (s : string),
    (String.length s <= n)%nat ->
    (leading_backticks (drop_trailing_commas closer s) <= leading_backticks s)%nat
    /\ (Js.includes (drop_trailing_commas closer s) "```" = true ->
        Js.includes s "```" = true).
Proof.
  intros Hcloser. unfold drop_trailing_commas.
  induction n as [|n IH]; intros s Hlen.
  - destruct s; [split; [reflexivity|intros H; exact H]|cbn in Hlen; lia].
  - destruct s as [|c s]; [split; [reflexivity|intros H; exact H]|].
    cbn [drop_trailing_commas_from].
    destruct (if Ascii.eqb c "," then spaces_then closer s else None) as [k|].
    + rewrite skipped_is_dropped.
      cbn [leading_backticks Js.includes]. rewrite Hcloser, prefix_fence.
      cbn [leading_backticks]. rewrite Hcloser. cbn [Nat.leb orb].
      split; [lia|]. intros Hin.
      destruct (IH (Fragment.drop k s)) as [_ Hback].
      { pose proof (length_drop k s). cbn in Hlen. lia. }
      apply Hback in Hin. apply includes_iff in Hin.
      destruct Hin as (pre & post & Hd).
      destruct (drop_part k s) as (a & Ha).
      rewrite orb_true_iff. right. apply includes_iff.
      exists (a ++ pre), post. rewrite Ha, Hd, !append_assoc. reflexivity.
    + destruct (IH s) as [Hlead Hback]; [cbn in Hlen; lia|].
      cbn [leading_backticks Js.includes]. rewrite !prefix_fence.
      cbn [leading_backticks].
      destruct (Ascii.eqb c "`").
      * split; [lia|]. rewrite !orb_true_iff. intros [H3|Hin].
        -- left. apply Nat.leb_le in H3. apply Nat.leb_le. lia.
        -- right. apply Hback, Hin.
      * split; [lia|]. cbn [Nat.leb orb]. exact Hback.
Qed.

Lemma fix_commas_no_fence (s : string) :
  Js.includes s "```" = false -> Js.includes (fix_commas s) "```" = false.
Proof.
  intros Hs. unfold fix_commas.
  destruct (Js.includes (drop_trailing_commas "]" (drop_trailing_commas "}" s)) "```")
    eqn:Hin; [|reflexivity].
  apply (proj2 (drop_trailing_commas_spec "]" eq_refl _ _ (Nat.le_refl _))) in Hin.
  apply (proj2 (drop_trailing_commas_spec "}" eq_refl _ _ (Nat.le_refl _))) in Hin.
  congruence.
Qed.

Lemma strip_fences_no_fence (response : string) :
  Js.includes (strip_fences response) "```" = false.
Proof.
  unfold strip_fences.
  destruct (trim_part (Js.remove_all Ascii.eqb "```"
                         (Js.remove_all Js.eqb_nocase "```json" response)))
    as (a & b & Hpart).
  apply (includes_part a _ b). rewrite <- Hpart.
  apply (remove_fences_spec _ _ (Nat.le_refl _)).
Qed.

Lemma select_span_no_fence (s : string) :
  Js.includes s "```" = false -> Js.includes (select_span s) "```" = false.
Proof.
  intros Hs. unfold select_span.
  destruct (jsonMatch s) as [m|] eqn:Hm; [|exact Hs].
  destruct (jsonMatch_greedy s m Hm) as (pre & post & _ & _ & Hpart & _).
  rewrite Hpart in Hs. exact (includes_part _ _ _ _ Hs).
Qed.

Lemma blank_condition (response : string) :
  String.eqb response "" || (String.length (Js.trim response) =? 0)%nat
  = all_whitespace response.
Proof.
  rewrite trim_blank. destruct response; [reflexivity|].
  cbn [String.eqb orb]. reflexivity.
Qed.

Section ParsingMore.

Variable JSON_parse : string -> option json.

Local Abbreviation parseJSONResponse' := (parseJSONResponse JSON_parse).

(** X11.  [parseJSONResponse] refuses its input as empty exactly when
    every character of it is white space, and then without a parse; any
    other input reaches [JSON.parse], once or twice, and ends in a value
    or in the invalid-JSON error. *)
Theorem empty_input_is_blank_input (response : string) (w : world) :
  (fst (parseJSONResponse' response w) = Throws EmptyInput <->
   all_whitespace response = true)
  /\ (all_whitespace response = true -> snd (parseJSONResponse' response w) = w)
  /\ (all_whitespace response = false ->
      exists r d,
        parseJSONResponse' response w = (r, (w ++ d)%list)
        /\ (1 <= List.length d <= 2)%nat
        /\ ((exists v, r = Returns v) \/ r = Throws InvalidJSON)).
Proof.
  destruct (all_whitespace response) eqn:Hw.
  - assert (Hrun : parseJSONResponse' response w = (Throws EmptyInput, w)).
    { unfold parseJSONResponse. rewrite blank_condition, Hw. reflexivity. }
    rewrite Hrun. repeat split; discriminate.
  - assert (Hblank := blank_condition response). rewrite Hw in Hblank.
    pose proof (parseJSONResponse_run JSON_parse response w Hblank) as Hrun.
    cbv zeta in Hrun. rewrite Hrun.
    destruct (JSON_parse (select_span (strip_fences response))) as [v|].
    + repeat split; try discriminate.
      intros _. eexists. eexists. split; [reflexivity|].
      split; [cbn; lia|]. left. exists v. reflexivity.
    + destruct (JSON_parse (fix_commas (select_span (strip_fences response))))
        as [v|].
      * repeat split; try discriminate.
        intros _. eexists. eexists. split; [reflexivity|].
        split; [cbn; lia|]. left. exists v. reflexivity.
      * repeat split; try discriminate.
        intros _. eexists. eexists. split; [reflexivity|].
        split; [cbn; lia|]. right. reflexivity.
Qed.

(** X12.  No code fence reaches the parser: whatever the input, neither
    the text of the first parse nor the repaired text of the second
    contains three backticks in a row. *)
Theorem no_fence_reaches_the_parser (response : string) (w : world) :
  exists r d,
    parseJSONResponse' response w = (r, (w ++ d)%list)
    /\ forall source, In (Parsed source) d -> Js.includes source "```" = false.
Proof.
  pose proof (select_span_no_fence _ (strip_fences_no_fence response)) as Hclean.
  pose proof (fix_commas_no_fence _ Hclean) as Hfixed.
  destruct (all_whitespace response) eqn:Hw.
  - exists (Throws EmptyInput), []. split.
    + unfold parseJSONResponse. rewrite blank_condition, Hw, app_nil_r.
      reflexivity.
    + intros source [].
  - assert (Hblank := blank_condition response). rewrite Hw in Hblank.
    pose proof (parseJSONResponse_run JSON_parse response w Hblank) as Hrun.
    cbv zeta in Hrun. rewrite Hrun.
    destruct (JSON_parse (select_span (strip_fences response))) as [v|].
    + eexists. eexists. split; [reflexivity|].
      intros source [H|[]]. injection H as <-. exact Hclean.
    + destruct (JSON_parse (fix_commas (select_span (strip_fences response))));
        (eexists; eexists; split; [reflexivity|]);
        intros source [H|[H|[]]]; injection H as <-; assumption.
Qed.

End ParsingMore.

Lemma empty_input_is_blank_input_witness :
  parseJSONResponse Fragment.parse (String newline "  ") []
  = (Throws EmptyInput, []).
Proof.
  pose proof (empty_input_is_blank_input Fragment.parse (String newline "  ") [])
    as (Hiff & Hsame & _).
  apply injective_projections.
  - exact (proj2 Hiff eq_refl).
  - exact (Hsame eq_refl).
Defined.

(** ** The base name of a provider *)

Lemma split_is_not_empty (sep : ascii) (s : string) : Js.split sep s <> [].
Proof.
  induction s as [|c s IH]; cbn [Js.split]; [discriminate|].
  destruct (Ascii.eqb c sep); [discriminate|].
  destruct (Js.split sep s); discriminate.
Qed.

(** X13.  The base name under which a provider is looked up a second
    time is the part of its identifier before the first slash: it holds
    no slash itself, and a slash follows it in the identifier. *)
Theorem base_name_is_before_the_first_slash (provider : string) :
  Js.includes provider "/" = true ->
  let baseProvider := hd "" (Js.split "/" provider) in
  occurs "/" baseProvider = false
  /\ exists model, provider = baseProvider ++ "/" ++ model.
Proof.
  induction provider as [|c s IH]; [discriminate|].
  intros Hslash. cbn [Js.split].
  destruct (Ascii.eqb_spec c "/") as [->|Hc].
  - cbn [hd]. split; [reflexivity|]. exists s. reflexivity.
  - assert (Hs : Js.includes s "/" = true).
    { cbn [Js.includes] in Hslash. apply orb_true_iff in Hslash.
      destruct Hslash as [Hp|Hs]; [|exact Hs].
      apply prefix_iff in Hp. destruct Hp as (post & Hp).
      injection Hp as Hp _. congruence. }
    destruct (IH Hs) as [Hbase (model & Hmodel)].
    destruct (Js.split "/" s) as [|h t] eqn:Hsplit;
      [exfalso; exact (split_is_not_empty _ _ Hsplit)|].
    cbn [hd] in *. split.
    + cbn [occurs]. rewrite Hbase, orb_false_r.
      destruct (Ascii.eqb_spec c "/"); [contradiction|reflexivity].
    + exists model. rewrite Hmodel at 1. reflexivity.
Qed.

Lemma base_name_is_before_the_first_slash_witness :
  hd "" (Js.split "/" "openai/gpt-4o-mini/latest") = "openai"
  /\ exists model,
       "openai/gpt-4o-mini/latest" = "openai" ++ "/" ++ model.
Proof.
  split; [reflexivity|].
  exact (proj2 (base_name_is_before_the_first_slash
                  "openai/gpt-4o-mini/latest" eq_refl)).
Defined.

(** ** The span the regular expression finds *)

Lemma occurs_append (c : ascii) (a b : string) :
  occurs c (a ++ b) = occurs c a || occurs c b.
Proof.
  induction a as [|x a IH]; cbn; [reflexivity|].
  rewrite IH, orb_assoc. reflexivity.
Qed.

Lemma through_last_occurs (closer : ascii) (s t : string) :
  through_last closer s = Some t -> occurs closer s = true.
Proof.
  intros Ht.
  destruct (through_last_some _ _ _ Ht) as (body & post & -> & -> & _).
  rewrite !occurs_append. cbn [occurs]. rewrite Ascii.eqb_refl.
  cbn [orb]. rewrite orb_true_r. reflexivity.
Qed.

(** X14.  The match misses nothing: [jsonMatch] finds no span exactly
    when no opening brace or bracket of the text has a closer of its own
    kind anywhere after it, and only then is the text parsed whole. *)
Theorem jsonMatch_misses_nothing (s : string) :
  jsonMatch s = None <->
  (forall pre c post,
      s = pre ++ String c post ->
      is_opener c = true ->
      occurs (closer_of c) post = false).
Proof.
  induction s as [|c s IH].
  - split; [|reflexivity].
    intros _ [|x pre] c post H; discriminate H.
  - cbn [jsonMatch].
    set (here := if Ascii.eqb c "{" then option_map (String c) (through_last "}" s)
                 else if Ascii.eqb c "[" then option_map (String c) (through_last "]" s)
                 else None).
    assert (Hhere : here = None <->
                    (is_opener c = true -> occurs (closer_of c) s = false)).
    { subst here. unfold is_opener, closer_of.
      destruct (Ascii.eqb c "{"); cbn [orb].
      - destruct (through_last "}" s) eqn:Ht; cbn [option_map].
        + split; [discriminate|]. intros H. specialize (H eq_refl).
          rewrite (through_last_occurs _ _ _ Ht) in H. discriminate H.
        + split; [|reflexivity]. intros _ _. apply through_last_none, Ht.
      - destruct (Ascii.eqb c "["); [|split; [discriminate|reflexivity]].
        destruct (through_last "]" s) eqn:Ht; cbn [option_map].
        + split; [discriminate|]. intros H. specialize (H eq_refl).
          rewrite (through_last_occurs _ _ _ Ht) in H. discriminate H.
        + split; [|reflexivity]. intros _ _. apply through_last_none, Ht. }
    destruct here as [m|] eqn:Eh.
    + split; [discriminate|]. intros Hall. exfalso.
      assert (Hn : Some m = None); [|discriminate Hn].
      apply Hhere. intros Hop. apply (Hall "" c s eq_refl Hop).
    + rewrite IH. split.
      * intros Hall [|x pre] c0 post Heq Hop.
        -- cbn in Heq. injection Heq as <- <-.
           apply (proj1 Hhere eq_refl Hop).
        -- cbn in Heq. injection Heq as _ ->.
           apply (Hall pre c0 post eq_refl Hop).
      * intros Hall pre c0 post -> Hop.
        apply (Hall (String c pre) c0 post eq_refl Hop).
Qed.

(** ** A document without fences *)

Lemma nocase_backtick (c : ascii) : Js.eqb_nocase "`" c = true -> c = "`"%char.
Proof.
  destruct c as [[] [] [] [] [] [] [] []]; vm_compute; intros H;
    try discriminate H; reflexivity.
Qed.

Lemma starts_with_json_fence (s : string) :
  Js.starts_with Js.eqb_nocase "```json" s = true ->
  String.prefix "```" s = true.
Proof.
  intros H. apply prefix_iff.
  destruct s as [|c1 [|c2 [|c3 s]]]; cbn [Js.starts_with] in H;
    try discriminate H;
    repeat match type of H with
           | context [Js.eqb_nocase "`" ?c] =>
               destruct (Js.eqb_nocase "`" c) eqn:?; cbn [andb] in H
           end; try discriminate H.
  repeat match goal with
         | E : Js.eqb_nocase "`" _ = true |- _ => apply nocase_backtick in E; subst
         end.
  exists s. reflexivity.
Qed.

(** Where there is no fence, deleting the fences changes nothing. *)
Lemma remove_all_absent (eqc : ascii -> ascii -> bool) (pat s : string) :
  (forall t, Js.starts_with eqc pat t = true -> String.prefix "```" t = true) ->
  Js.includes s "```" = false ->
  Js.remove_all eqc pat s = s.
Proof.
  intros Hpat. unfold Js.remove_all.
  induction s as [|c s IH]; intros Hs; [reflexivity|].
  cbn [Js.includes] in Hs. apply orb_false_iff in Hs. destruct Hs as [Hp Hs].
  cbn [Js.remove_all_from].
  destruct (Js.starts_with eqc pat (String c s)) eqn:Hm.
  - apply Hpat in Hm. congruence.
  - rewrite (IH Hs). reflexivity.
Qed.

Lemma trimEnd_keeps (s : string) (z : ascii) :
  Js.is_whitespace z = false ->
  Js.trimEnd (s ++ String z "") = s ++ String z "".
Proof.
  intros Hz. induction s as [|x s IH]; cbn [append Js.trimEnd].
  - rewrite Hz. reflexivity.
  - rewrite IH. destruct s; reflexivity.
Qed.

Lemma through_last_whole (closer : ascii) (body : string) :
  through_last closer (body ++ String closer "")
  = Some (body ++ String closer "").
Proof.
  induction body as [|x body IH]; cbn [append through_last].
  - rewrite Ascii.eqb_refl. reflexivity.
  - rewrite IH. reflexivity.
Qed.

Lemma opener_is_not_whitespace (o : ascii) :
  is_opener o = true ->
  Js.is_whitespace o = false /\ Js.is_whitespace (closer_of o) = false.
Proof.
  intros Ho. destruct (is_opener_cases _ Ho) as [->| ->]; split; reflexivity.
Qed.

Section BareDocument.

Variable JSON_parse : string -> option json.

(** X15.  A response that is one JSON object or array, from its opening
    brace or bracket to the closing one and with no code fence in it,
    reaches [JSON.parse] as it is: when it parses, [parseJSONResponse]
    returns its value after that single parse. *)
Theorem bare_document_is_parsed_as_it_is (o : ascii) (body : string) (v : json)
    (w : world) :
  let response := String o (body ++ String (closer_of o) "") in
  is_opener o = true ->
  Js.includes response "```" = false ->
  JSON_parse response = Some v ->
  parseJSONResponse JSON_parse response w
  = (Returns v, (w ++ [Parsed response])%list).
Proof.
  intros response Ho Hfence Hparse.
  destruct (opener_is_not_whitespace o Ho) as [Hws Hwz].
  assert (Hstrip : strip_fences response = response).
  { unfold strip_fences.
    rewrite (remove_all_absent _ "```json" response starts_with_json_fence Hfence).
    rewrite (remove_all_absent Ascii.eqb "```" response); [|
      intros t Ht; rewrite prefix_fence, <- starts_with_fence; exact Ht | exact Hfence].
    unfold Js.trim, response. cbn [Js.trimStart]. rewrite Hws.
    change (String o (body ++ String (closer_of o) ""))
      with (String o body ++ String (closer_of o) "").
    apply trimEnd_keeps, Hwz. }
  assert (Hspan : select_span response = response).
  { unfold select_span, response. cbn [jsonMatch].
    unfold closer_of.
    destruct (is_opener_cases _ Ho) as [->| ->]; cbn [Ascii.eqb Bool.eqb].
    - change "}"%char with (closer_of "{").
      rewrite through_last_whole. reflexivity.
    - change "]"%char with (closer_of "[").
      rewrite through_last_whole. reflexivity. }
  assert (Hblank : String.eqb response "" || (String.length (Js.trim response) =? 0)%nat
                   = false).
  { rewrite blank_condition. unfold response. cbn [all_whitespace].
    rewrite Hws. reflexivity. }
  pose proof (parseJSONResponse_run JSON_parse response w Hblank) as Hrun.
  cbv zeta in Hrun. rewrite Hstrip, Hspan, Hparse in Hrun. exact Hrun.
Qed.

End BareDocument.

Lemma bare_document_is_parsed_as_it_is_witness :
  parseJSONResponse Fragment.parse Sample.repaired []
  = (Returns (JObj [("a", JNum "1")]), [Parsed Sample.repaired]).
Proof.
  exact (bare_document_is_parsed_as_it_is Fragment.parse "{"
           (quoted "a" ++ ":1") (JObj [("a", JNum "1")]) []
           eq_refl eq_refl eq_refl).
Defined.
